(** * Single-cell utility routines (notebooks/utils.py): a shallow embedding

    The Python module is modelled function by function.  Integers are [Z]
    (Python ints are unbounded), row numbers and lengths are [nat], arrays
    are lists, and a call that raises in Python returns [None] here.
    Floating-point numbers are the primitive binary64 floats; the values
    of a float32 matrix are kept as sign, mantissa and exponent, with the
    IEEE 754 operations at 24 bits of precision. *)

From Stdlib Require Import ZArith QArith Lia Bool Floats.
From stdpp Require Import base numbers list strings.

Local Open Scope Z_scope.

(** ** Python slices *)

Module Py.

(** [a[start:end]] for non-negative bounds: both are clamped to the
    length, and the slice is empty when [end <= start]. *)
Definition slice {A : Type} (start_idx end_idx : nat) (l : list A) : list A :=
  take (end_idx - start_idx) (drop start_idx l).

(** A slice bound that is an arbitrary integer: a negative bound counts
    from the end, and the result is clamped to [0, len]. *)
Definition bound (len : nat) (i : Z) : nat :=
  let i := if i <? 0 then i + Z.of_nat len else i in
  Z.to_nat (Z.min (Z.max i 0) (Z.of_nat len)).

(** [a[start:end]] for integer bounds. *)
Definition slice_z {A : Type} (start_idx end_idx : Z) (l : list A) : list A :=
  slice (bound (length l) start_idx) (bound (length l) end_idx) l.

(** [a[start:]] for an integer bound. *)
Definition slice_from {A : Type} (start_idx : Z) (l : list A) : list A :=
  drop (bound (length l) start_idx) l.

(** [a[mask]] for a boolean mask with one entry per element. *)
Fixpoint select {A : Type} (mask : list bool) (l : list A) : list A :=
  match mask, l with
  | b :: mask, x :: l => if b then x :: select mask l else select mask l
  | _, _ => []
  end.

End Py.

(** ** Interval overlap ([overlap], utils.py 104-120) *)

Module Overlap.

(** [gene] is the tuple [(chrom, start, end, strand)] and [fragment] the
    tuple [(chrom, start, end)] that the function indexes. *)
Record gene := Gene {
  g_chrom : string;
  g_start : Z;
  g_end : Z;
  g_strand : string
}.

Record fragment := Fragment {
  f_chrom : string;
  f_start : Z;
  f_end : Z
}.

(** The padding after the first [if]: the two values are exchanged for a
    gene on the reverse strand. *)
Definition swap_padding (g : gene) (upstream downstream : Z) : Z * Z :=
  if String.eqb (g_strand g) "rev" then (downstream, upstream)
  else (upstream, downstream).

(** The function returns [True], [False] or falls off its end, which in
    Python yields [None]: [Some true], [Some false] and [None] here. *)
Definition overlap (g : gene) (f : fragment) (upstream downstream : Z)
  : option bool :=
  let '(upstream, downstream) := swap_padding g upstream downstream in
  if negb (String.eqb (g_chrom g) (f_chrom f)) then Some false
  else if (g_end g + downstream >=? f_start f)
          && (g_start g - upstream <=? f_start f) then Some true
  else if (g_end g + downstream >=? f_end f)
          && (g_start g - upstream <=? f_end f) then Some true
  else if (g_start g - upstream >=? f_start f)
          && (g_end g + downstream <=? f_end f) then Some true
  else None.

(** The keyword defaults [upstream=10000, downstream=0]. *)
Definition overlap_default (g : gene) (f : fragment) : option bool :=
  overlap g f 10000 0.

(** The span of the gene after padding, as the three tests read it. *)
Definition padded_lo (g : gene) (upstream downstream : Z) : Z :=
  g_start g - fst (swap_padding g upstream downstream).

Definition padded_hi (g : gene) (upstream downstream : Z) : Z :=
  g_end g + snd (swap_padding g upstream downstream).

(** The three containment conditions. *)
Definition start_in_span (g : gene) (f : fragment) (up down : Z) : Prop :=
  padded_lo g up down <= f_start f <= padded_hi g up down.

Definition end_in_span (g : gene) (f : fragment) (up down : Z) : Prop :=
  padded_lo g up down <= f_end f <= padded_hi g up down.

Definition gene_in_fragment (g : gene) (f : fragment) (up down : Z) : Prop :=
  f_start f <= padded_lo g up down /\ padded_hi g up down <= f_end f.

Definition gene_fwd : gene := Gene "chr1" 100 200 "fwd".
Definition gene_rev : gene := Gene "chr1" 100 200 "rev".

End Overlap.

(** ** Batched PCA ([pca], utils.py 13-65) *)

Module Pca.
Import Py.

(** [a[start:end] = new], where [new] has as many rows as the slice. *)
Definition assign_slice {A : Type} (start_idx end_idx : nat)
    (new l : list A) : list A :=
  take start_idx l ++ new ++ drop (Nat.max start_idx end_idx) l.

(** [math.ceil] of a binary64 number; an infinity and a NaN raise. *)
Definition ceil (x : float) : option Z :=
  match Prim2SF x with
  | S754_zero _ => Some 0
  | S754_finite s m e =>
      Some (if 0 <=? e
            then (if s then - (Z.pos m * 2 ^ e) else Z.pos m * 2 ^ e)
            else if s then - (Z.pos m / 2 ^ (- e))
            else - ((- Z.pos m) / 2 ^ (- e)))
  | S754_infinity _ | S754_nan => None
  end.

(** The binary64 number of a count. *)
Definition to_float (n : nat) : float :=
  PrimFloat.of_uint63 (Uint63.of_Z (Z.of_nat n)).

(** [math.ceil(rows * train_ratio)], computed in binary64 as Python
    does.  The ratio is given by the fraction [num / den] whose nearest
    binary64 number it is: 0.35 is 7/20. *)
Definition train_size (rows num den : nat) : option nat :=
  size ← ceil (to_float rows * (to_float num / to_float den))%float;
  Some (Z.to_nat size).

(** The bounds of one pass of the loop (lines 53-57).
    [batch_size = int(rows / n_batches)] is the truncated float quotient,
    which is the integer quotient for every row count below 2^53. *)
Definition batch_bounds (rows batch_size batch : nat) : nat * nat :=
  let start_idx := (batch * batch_size)%nat in
  let end_idx := (start_idx + batch_size)%nat in
  let end_idx :=
    if Z.of_nat rows - Z.of_nat end_idx <? Z.of_nat batch_size
    then rows else end_idx in
  (start_idx, end_idx).

Definition batch_width (rows batch_size batch : nat) : nat :=
  let '(start_idx, end_idx) := batch_bounds rows batch_size batch in
  (end_idx - start_idx)%nat.

(** The widths of the slices the loop transforms, batch by batch. *)
Definition batch_widths (rows n_batches : nat) : list nat :=
  map (batch_width rows (rows / n_batches)%nat) (seq 0 n_batches).

Section Pca.

(** [Row] is a row of [adata.X], [Emb] a row of the embeddings, [zero] the
    row of zeros [cp.zeros] allocates, and [fit] the decomposition
    routine: [fit train] is the row transform of the model fitted on
    [train]. *)
Context {Row Emb : Type}.
Variable zero : Emb.
Variable fit : list Row -> Row -> Emb.

(** One pass of the loop body (line 59). *)
Definition transform_batch (transform : Row -> Emb) (X : list Row)
    (batch_size : nat) (embeddings : list Emb) (batch : nat) : list Emb :=
  let '(start_idx, end_idx) := batch_bounds (length X) batch_size batch in
  assign_slice start_idx end_idx
    (map transform (slice start_idx end_idx X)) embeddings.

(** Lines 50-59 for a fitted model. *)
Definition transform_in_batches (transform : Row -> Emb) (X : list Row)
    (n_batches : nat) : list Emb :=
  let embeddings := replicate (length X) zero in
  let batch_size := (length X / n_batches)%nat in
  foldl (transform_batch transform X batch_size) embeddings
        (seq 0 n_batches).

(** [pca] returns the embeddings it stores under [obsm["X_pca"]].
    [n_batches = 0] raises [ZeroDivisionError]; with more batches than
    rows the batch size is 0 and the transform of the empty first slice
    raises. *)
Definition pca (X : list Row) (num den n_batches : nat)
  : option (list Emb) :=
  train_size ← train_size (length X) num den;
  let transform := fit (slice 0 train_size X) in
  if (n_batches =? 0)%nat then None
  else if (length X <? n_batches)%nat then None
  else Some (transform_in_batches transform X n_batches).

(** The embeddings once the first [k] rows are written. *)
Definition written_prefix (transform : Row -> Emb) (X : list Row)
    (k : nat) : list Emb :=
  map transform (take k X) ++ replicate (length X - k)%nat zero.

End Pca.

(** The number of leading rows the loop writes. *)
Definition covered (rows n_batches : nat) : nat :=
  if (rows mod n_batches <? rows / n_batches)%nat then rows
  else (n_batches * (rows / n_batches))%nat.

End Pca.

(** ** Compressed-row matrices and the partition reader
    ([_read_partition_to_sparse_matrix], utils.py 179-205) *)

Module Csr.

(** A compressed-row matrix: the stored values, their column indices, the
    row pointers, and the shape [(rows, columns)]. *)
Record csr_matrix (V : Type) := CsrMatrix {
  data : list V;
  indices : list Z;
  indptr : list Z;
  shape : nat * nat
}.
Arguments CsrMatrix {V} _ _ _ _.
Arguments data {V} _.
Arguments indices {V} _.
Arguments indptr {V} _.
Arguments shape {V} _.

(** The datasets of the input file: [/X/data], [/X/indices], [/X/indptr],
    [/var/_index] and [/obs/_index]. *)
Record h5file (V : Type) := H5File {
  X_data : list V;
  X_indices : list Z;
  X_indptr : list Z;
  var_index : list string;
  obs_index : list string
}.
Arguments H5File {V} _ _ _ _ _.
Arguments X_data {V} _.
Arguments X_indices {V} _.
Arguments X_indptr {V} _.
Arguments var_index {V} _.
Arguments obs_index {V} _.

(** Consecutive pairs of an array. *)
Definition adjacent {A : Type} (l : list A) : list (A * A) :=
  zip l (tail l).

(** [cp.diff]. *)
Definition diff (l : list Z) : list Z :=
  map (fun p => snd p - fst p) (adjacent l).

Section Matrix.

Context {V : Type}.

(** A stored entry: its column index and its value. *)
Definition entries (m : csr_matrix V) : list (Z * V) :=
  zip (indices m) (data m).

(** The rows a compressed-row matrix denotes: row [i] holds the entries
    between the pointers [indptr[i]] and [indptr[i+1]]. *)
Definition rows (m : csr_matrix V) : list (list (Z * V)) :=
  map (fun p => Py.slice_z (fst p) (snd p) (entries m)) (adjacent (indptr m)).

(** The row pointers of the rows [rs] laid out from offset [start]. *)
Fixpoint pointers_from (start : Z) (rs : list (list (Z * V))) : list Z :=
  start ::
  match rs with
  | [] => []
  | r :: rs => pointers_from (start + Z.of_nat (length r)) rs
  end.

(** The compressed-row matrix with the rows [rs]. *)
Definition of_rows (cols : nat) (rs : list (list (Z * V))) : csr_matrix V :=
  CsrMatrix (map snd (concat rs)) (map fst (concat rs))
            (pointers_from 0 rs) (length rs, cols).

(** The constructor [csr_matrix((data, indices, indptr), shape=...)]: it
    rejects values and indices of different sizes and a pointer array
    whose size is not the row count plus one. *)
Definition make_csr (data : list V) (indices indptr : list Z)
    (shape : nat * nat) : option (csr_matrix V) :=
  if (length data =? length indices)%nat
     && (length indptr =? fst shape + 1)%nat
  then Some (CsrMatrix data indices indptr shape)
  else None.

(** [m[query]] for a boolean mask over the rows. *)
Definition select_rows (query : list bool) (m : csr_matrix V)
  : csr_matrix V :=
  of_rows (snd (shape m)) (Py.select query (rows m)).

(** Lines 184-200: the partition [batch_start, batch_end) rebuilt as a
    matrix of its own.  Indexing the pointer dataset out of range, and
    the first element of an empty slice, raise. *)
Definition partial_sparse_array (f : h5file V)
    (total_cols batch_start batch_end : nat) : option (csr_matrix V) :=
  start_ptr ← X_indptr f !! batch_start;
  end_ptr ← X_indptr f !! batch_end;
  let sub_data := Py.slice_z start_ptr end_ptr (X_data f) in
  let sub_indices := Py.slice_z start_ptr end_ptr (X_indices f) in
  let sub_indptrs := Py.slice batch_start (batch_end + 1) (X_indptr f) in
  first ← sub_indptrs !! 0%nat;
  let sub_indptrs := map (fun p => p - first) sub_indptrs in
  make_csr sub_data sub_indices sub_indptrs
           (batch_end - batch_start, total_cols)%nat.

(** Lines 203-204: the degree of every row and the inclusive test. *)
Definition degree_query (min_genes_per_cell max_genes_per_cell : Z)
    (m : csr_matrix V) : list bool :=
  let degrees := diff (indptr m) in
  map (fun d => (min_genes_per_cell <=? d) && (d <=? max_genes_per_cell))
      degrees.

(** The degree filter alone (lines 203-205), on any matrix. *)
Definition degree_filter (min_genes_per_cell max_genes_per_cell : Z)
    (m : csr_matrix V) : csr_matrix V :=
  select_rows (degree_query min_genes_per_cell max_genes_per_cell m) m.

Definition _read_partition_to_sparse_matrix (f : h5file V)
    (total_cols batch_start batch_end : nat)
    (min_genes_per_cell max_genes_per_cell : Z) : option (csr_matrix V) :=
  partial_sparse_array ← partial_sparse_array f total_cols
                           batch_start batch_end;
  Some (degree_filter min_genes_per_cell max_genes_per_cell
          partial_sparse_array).

(** Concatenation of row blocks (what [dask.array.concatenate] yields
    once computed); an empty sequence raises, and so do blocks that
    disagree on the column count. *)
Definition vstack (blocks : list (csr_matrix V)) : option (csr_matrix V) :=
  match blocks with
  | [] => None
  | m :: _ =>
      if forallb (fun b => (snd (shape b) =? snd (shape m))%nat) blocks
      then Some (of_rows (snd (shape m)) (concat (map rows blocks)))
      else None
  end.

(** The whole matrix of the file, as one compressed-row matrix. *)
Definition whole_matrix (f : h5file V) (total_cols : nat) : csr_matrix V :=
  CsrMatrix (X_data f) (X_indices f) (X_indptr f)
            (length (X_indptr f) - 1, total_cols)%nat.

(** The degree of a row: the number of its stored entries. *)
Definition degree (r : list (Z * V)) : Z := Z.of_nat (length r).

Definition degree_ok (min_genes_per_cell max_genes_per_cell : Z)
    (r : list (Z * V)) : bool :=
  (min_genes_per_cell <=? degree r) && (degree r <=? max_genes_per_cell).

(** A well-formed file: as many values as indices, and row pointers that
    start at 0, never decrease and end within the values. *)
Definition pointers_ok (f : h5file V) : bool :=
  (length (X_data f) =? length (X_indices f))%nat
  && match X_indptr f with
     | [] => false
     | p :: _ => (p =? 0)
     end
  && forallb (fun p => fst p <=? snd p) (adjacent (X_indptr f))
  && forallb (fun p => p <=? Z.of_nat (length (X_data f))) (X_indptr f).

(** The partitions [b0, b1), [b1, b2), ... cut at the boundaries [bs]. *)
Definition partitions (bs : list nat) : list (nat * nat) := adjacent bs.

(** Boundaries that split the rows [0, n): they start at 0, never
    decrease and end at [n]. *)
Definition splits (n : nat) (bs : list nat) : bool :=
  match bs with
  | [] => false
  | b :: _ => (b =? 0)%nat
  end
  && forallb (fun p => (fst p <=? snd p)%nat) (adjacent bs)
  && bool_decide (last bs = Some n).

(** Every partition read and filtered, in order. *)
Definition read_partitions (f : h5file V) (total_cols : nat)
    (bs : list nat) (min_genes_per_cell max_genes_per_cell : Z)
  : option (list (csr_matrix V)) :=
  mapM (fun p => _read_partition_to_sparse_matrix f total_cols
                   (fst p) (snd p) min_genes_per_cell max_genes_per_cell)
       (partitions bs).

(** The column indices of a row lie within [cols] columns. *)
Definition indices_in_range (cols : nat) (r : list (Z * V)) : bool :=
  forallb (fun e => (0 <=? fst e) && (fst e <? Z.of_nat cols)) r.

(** A row in canonical format: its column indices increase strictly. *)
Fixpoint has_canonical_format (r : list (Z * V)) : bool :=
  match r with
  | [] => true
  | e :: r' =>
      match r' with
      | [] => true
      | e' :: _ => (fst e <? fst e') && has_canonical_format r'
      end
  end.

(** Rows in canonical format with their indices within [cols] columns. *)
Definition canonical_rows (cols : nat) (rs : list (list (Z * V))) : bool :=
  forallb (fun r => has_canonical_format r && indices_in_range cols r) rs.

End Matrix.

(** A small file: four cells over three genes, with the rows
    [(0,1) (1,2)], [], [(0,3) (2,4) (1,5)] and [(2,6)]. *)
Definition sample_file : h5file Z :=
  H5File [1; 2; 3; 4; 5; 6] [0; 1; 0; 2; 1; 2] [0; 2; 2; 5; 6]
         ["g0"; "g1"; "g2"] ["c0"; "c1"; "c2"; "c3"].

End Csr.

(** ** The distributed reducer ([sum_csr_matrix], utils.py 134-157) *)

Module Reducer.
Import Csr.

(** The axis of a sum or of a concatenation. *)
Inductive axis := Axis0 | Axis1.

Definition worker := string.

(** A distributed client: its name, and the worker that holds each
    partition of a partitioned array. *)
Record Client := MkClient {
  client_name : string;
  who_has : nat -> worker
}.

(** The process-wide state [dask.distributed.default_client()] reads:
    the client created last, if any. *)
Record runtime := Runtime {
  default_client : option Client
}.

(** The arithmetic of the dtype of the stored values, as far as the sums
    and the gene filter use it: its zero, the addition [x.sum] performs
    in that dtype, and the comparison [x >= k] with a Python int. *)
Class Dtype (V : Type) := MkDtype {
  d_zero : V;
  d_add : V -> V -> V;
  d_ge : V -> Z -> bool
}.

Section Sums.

Context {V : Type} `{Dtype V}.

(** A dense matrix, row by row. *)
Definition dense := list (list V).

(** A sum is accumulated from zero, one value after the other. *)
Definition sum_values (l : list V) : V := foldl d_add d_zero l.

Definition nrows (d : dense) : nat := length d.

Definition ncols (d : dense) : nat :=
  match d with
  | [] => 0%nat
  | r :: _ => length r
  end.

(** The sum of the stored values of column [j], added in the order in
    which the rows store them. *)
Definition column_sum (rs : list (list (Z * V))) (j : nat) : V :=
  sum_values
    (map snd (List.filter (fun e => fst e =? Z.of_nat j) (concat rs))).

(** [x.sum(axis=axis)] of one partition: one row of column sums, or one
    column of row sums. *)
Definition csr_sum (ax : axis) (x : csr_matrix V) : dense :=
  match ax with
  | Axis0 => [map (column_sum (rows x)) (seq 0 (snd (shape x)))]
  | Axis1 => map (fun r => [sum_values (map snd r)]) (rows x)
  end.

(** [client.sync(_extract_partitions, csr_matrix)]: every partition with
    the worker that holds it. *)
Definition _extract_partitions (client : Client)
    (csr_matrix : list (Csr.csr_matrix V))
  : list (worker * Csr.csr_matrix V) :=
  imap (fun k part => (who_has client k, part)) csr_matrix.

(** [dask.array.concatenate(objs, axis=axis)]: an empty sequence raises,
    and so do blocks whose other dimension differs. *)
Definition concatenate (ax : axis) (objs : list dense) : option dense :=
  match objs with
  | [] => None
  | o :: _ =>
      match ax with
      | Axis0 =>
          if forallb (fun b => (ncols b =? ncols o)%nat) objs
          then Some (concat objs) else None
      | Axis1 =>
          if forallb (fun b => (nrows b =? nrows o)%nat) objs
          then Some (foldr (zip_with app) (replicate (nrows o) []) objs)
          else None
      end
  end.

(** What a call leaves behind: the worker each task was pinned to, in
    submission order, and the concatenated result. *)
Record reduction := Reduction {
  placement : list worker;
  value : dense
}.

(** The function.  Its first statement rebinds [client] to the default
    client, which raises when there is none. *)
Definition sum_csr_matrix (rt : runtime)
    (csr_matrix : list (Csr.csr_matrix V))
    (client : Client) (ax : axis) : option reduction :=
  client ← default_client rt;
  let parts := _extract_partitions client csr_matrix in
  let futures := map (fun wp => (fst wp, csr_sum ax (snd wp))) parts in
  objs ← concatenate ax (map snd futures);
  Some (Reduction (map fst futures) objs).

End Sums.

(** A signed 64-bit integer kept in its range. *)
Definition wrap64 (z : Z) : Z := (z + 2 ^ 63) mod 2 ^ 64 - 2 ^ 63.

(** The dtype of an integer matrix: its sums are 64-bit integers. *)
#[export] Instance int64 : Dtype Z := {|
  d_zero := 0;
  d_add := fun a b => wrap64 (a + b);
  d_ge := fun x k => x >=? k
|}.

(** A binary32 number, written as its sign, mantissa and exponent. *)
Definition float32 := spec_float.

(** The binary32 number nearest to an integer. *)
Definition f32_of_Z (z : Z) : float32 := binary_normalize 24 128 z 0 false.

(** The dtype of a float32 matrix, the one [sum_csr_matrix] declares
    (line 155): sums round to 24 bits after every addition, and the
    Python int of a comparison is converted to binary32. *)
#[export] Instance float32_dtype : Dtype float32 := {|
  d_zero := S754_zero false;
  d_add := SFadd 24 128;
  d_ge := fun x k => SFleb (f32_of_Z k) x
|}.

Definition client_a : Client := MkClient "a" (fun _ => "worker-0").
Definition client_b : Client :=
  MkClient "b" (fun k => if (k =? 0)%nat then "worker-1" else "worker-2").

End Reducer.

(** ** The ingestion pipeline ([read_with_filter], utils.py 160-243) *)

Module Ingest.
Import Csr Reducer.

(** [range(0, stop, step)]; a zero step raises. *)
Definition range_step (stop step : nat) : option (list nat) :=
  if (step =? 0)%nat then None
  else Some (map (fun k => (k * step)%nat)
                 (seq 0 ((stop + step - 1) / step))).

(** The new index of column [c] under a boolean column mask: the number
    of retained columns before it. *)
Definition new_column (query : list bool) (c : Z) : Z :=
  Z.of_nat (length (List.filter (fun b : bool => b) (take (Z.to_nat c) query))).

Definition column_kept (query : list bool) (c : Z) : bool :=
  (0 <=? c) && bool_decide (query !! Z.to_nat c = Some true).

Section Pipeline.

Context {V : Type} `{Dtype V}.

(** [d.sum(axis=0)] of the rows the partitions contributed, one row per
    partition: the rows are added one after the other, as numpy does
    along the first axis of a matrix of two or more columns.  (Only the
    comparison with [min_cells] reads these sums.) *)
Definition dense_sum_axis0 (d : dense) : list V :=
  map (fun j => sum_values (map (fun r => nth j r d_zero) d))
      (seq 0 (ncols d)).

(** [m[:, query]] for a boolean mask over the columns. *)
Definition select_columns (query : list bool) (m : csr_matrix V)
  : csr_matrix V :=
  of_rows (length (List.filter (fun b : bool => b) query))
    (map (fun r =>
            map (fun e => (new_column query (fst e), snd e))
                (List.filter (fun e => column_kept query (fst e)) r))
         (rows m)).

(** The function.  When the file is read as a single partition, the sums
    of line 235 stay a matrix of one row, the mask of line 236 is a
    matrix of one row as well, and indexing the columns with it raises
    [IndexError] (line 242); with two or more partitions the mask is a
    vector. *)
Definition read_with_filter (rt : runtime) (client : Client)
    (sample_file : h5file V)
    (min_genes_per_cell max_genes_per_cell : Z) (min_cells : Z)
    (num_cells : option nat) (batch_size : nat)
  : option (csr_matrix V * list string) :=
  let genes := var_index sample_file in
  let total_cols := length genes in
  let max_cells :=
    match num_cells with
    | Some n => n
    | None => (length (X_indptr sample_file) - 1)%nat
    end in
  starts ← range_step max_cells batch_size;
  dls ← mapM (fun batch_start =>
                _read_partition_to_sparse_matrix sample_file total_cols
                  batch_start
                  (batch_start + Nat.min batch_size (max_cells - batch_start))
                  min_genes_per_cell max_genes_per_cell)
             starts;
  dask_sparse_arr ← vstack dls;
  sums ← sum_csr_matrix rt dls client Axis0;
  let gene_wise_cell_cnt := dense_sum_axis0 (value sums) in
  let query := map (fun c => d_ge c min_cells) gene_wise_cell_cnt in
  let genes := Py.select query genes in
  if (length dls =? 1)%nat then None
  else Some (select_columns query dask_sparse_arr, genes).

(** The keyword defaults: degrees in 200..6000, at least one cell, every
    row, batches of 5000. *)
Definition read_with_filter_default (rt : runtime) (client : Client)
    (sample_file : h5file V) : option (csr_matrix V * list string) :=
  read_with_filter rt client sample_file 200 6000 1 None 5000.

(** The rows of the file that survive the degree filter, batch by batch:
    one list of rows for every batch of [batch_size] cells. *)
Definition surviving_by_batch (sample_file : h5file V)
    (min_genes_per_cell max_genes_per_cell : Z) (batch_size : nat)
  : list (list (list (Z * V))) :=
  let rs := rows (whole_matrix sample_file
                    (length (var_index sample_file))) in
  let max_cells := (length (X_indptr sample_file) - 1)%nat in
  map (fun k =>
         List.filter (degree_ok min_genes_per_cell max_genes_per_cell)
           (Py.slice (k * batch_size)
              (k * batch_size
               + Nat.min batch_size (max_cells - k * batch_size)) rs))
      (seq 0 ((max_cells + batch_size - 1) / batch_size)).

(** The column mask the code computes from the surviving rows of the
    batches: per column, the sums of the values of the batches, added up
    and compared with [min_cells]. *)
Definition value_sum_mask (min_cells : Z) (total_cols : nat)
    (rss : list (list (list (Z * V)))) : list bool :=
  map (fun j => d_ge (sum_values (map (fun rs => column_sum rs j) rss))
                     min_cells)
      (seq 0 total_cols).

(** The count the specification names: the surviving rows that hold a
    nonzero entry in column [j]. *)
Definition nonzero_rows_in_column (nonzero : V -> bool)
    (rs : list (list (Z * V))) (j : nat) : Z :=
  Z.of_nat (length (List.filter
    (fun r => existsb (fun e => (fst e =? Z.of_nat j) && nonzero (snd e)) r)
    rs)).

(** The column mask the specification describes. *)
Definition cell_count_mask (nonzero : V -> bool) (min_cells : Z)
    (total_cols : nat) (rs : list (list (Z * V))) : list bool :=
  map (fun j => nonzero_rows_in_column nonzero rs j >=? min_cells)
      (seq 0 total_cols).

End Pipeline.


(** Two cells of a float32 matrix: the first holds 5 reads of gene g0,
    the second 1 read of gene g1. *)
Definition two_cell_file : h5file float32 :=
  H5File [f32_of_Z 5; f32_of_Z 1] [0; 1] [0; 1; 2] ["g0"; "g1"]
         ["c0"; "c1"].

(** A binary32 number other than zero. *)
Definition f32_nonzero (x : float32) : bool :=
  negb (SFeqb x (S754_zero false)).

End Ingest.

(** ** Peak filter ([filter_peaks], utils.py 123-131) *)

Module Peaks.

(** The annotated matrix: the counts row by row, and the labels of the
    columns. *)
Record AnnData := MkAnnData {
  X : list (list Z);
  var_names : list string
}.

Definition n_obs (adata : AnnData) : nat := length (X adata).
Definition n_vars (adata : AnnData) : nat := length (var_names adata).

(** [np.sum(adata.X > 0, axis=0)]: per column, the rows with a positive
    entry. *)
Definition peak_occurrences (adata : AnnData) : list Z :=
  map (fun j => Z.of_nat (length (List.filter (fun r => 0 <? nth j r 0)
                                              (X adata))))
      (seq 0 (n_vars adata)).

(** [peak_occurrences / adata.X.shape[0]], kept exact as a fraction.  (A
    matrix without rows gives 0 here, where the arrays hold NaN.) *)
Definition peak_frequency (adata : AnnData) : list Q :=
  map (fun o => (inject_Z o / inject_Z (Z.of_nat (n_obs adata)))%Q)
      (peak_occurrences adata).

(** [adata[:, use]]. *)
Definition column_slice (adata : AnnData) (use : list nat) : AnnData :=
  MkAnnData (map (fun r => map (fun j => nth j r 0) use) (X adata))
            (map (fun j => nth j (var_names adata) "") use).

Section Argsort.

(** [np.argsort]: the sorting routine is a parameter. *)
Variable argsort : list Q -> list nat.

(** The indices the function keeps (lines 127-130). *)
Definition retained_columns (adata : AnnData) (n_top_peaks : Z) : list nat :=
  let peak_frequency := peak_frequency adata in
  let frequent_peak_idxs := argsort peak_frequency in
  Py.slice_from (- n_top_peaks) frequent_peak_idxs.

Definition filter_peaks (adata : AnnData) (n_top_peaks : Z) : AnnData :=
  let use := retained_columns adata n_top_peaks in
  column_slice adata use.

End Argsort.

(** The frequency of column [j]. *)
Definition key (freq : list Q) (j : nat) : Q := nth j freq 0%Q.

Fixpoint distinct (l : list nat) : bool :=
  match l with
  | [] => true
  | x :: l => negb (existsb (Nat.eqb x) l) && distinct l
  end.

(** What [np.argsort] promises of its result: the indices of the array,
    each once, in an order of ascending values. *)
Definition is_argsort (freq : list Q) (order : list nat) : bool :=
  (length order =? length freq)%nat
  && forallb (fun j => (j <? length freq)%nat) order
  && distinct order
  && forallb (fun p => Qle_bool (key freq (fst p)) (key freq (snd p)))
             (zip order (tail order)).

(** A stable argsort: insertion from the right into a sorted list,
    before the first strictly larger value. *)
Fixpoint insert_index (freq : list Q) (j : nat) (sorted : list nat)
  : list nat :=
  match sorted with
  | [] => [j]
  | k :: sorted' =>
      if Qle_bool (key freq j) (key freq k) then j :: sorted
      else k :: insert_index freq j sorted'
  end.

Definition argsort_stable (freq : list Q) : list nat :=
  foldr (insert_index freq) [] (seq 0 (length freq)).

(** Five rows and four columns with the column frequencies
    0.2, 0.8, 0.4, 0.6. *)
Definition peaks_example : AnnData :=
  MkAnnData [[1; 1; 1; 1]; [0; 1; 1; 1]; [0; 1; 0; 1]; [0; 1; 0; 0];
             [0; 0; 0; 0]]
            ["p0"; "p1"; "p2"; "p3"].

End Peaks.

(** ** TF-IDF normalisers ([tf_idf], [logtf_idf], utils.py 68-101) *)

Module Tfidf.
Import Csr.

(** The floating-point arithmetic the two functions use: addition,
    multiplication, division, [np.log1p], the conversion of an integer,
    and the test [x > 0]. *)
Class Arith (F : Type) := MkArith {
  f_zero : F;
  f_one : F;
  f_add : F -> F -> F;
  f_mul : F -> F -> F;
  f_div : F -> F -> F;
  f_log1p : F -> F;
  f_of_Z : Z -> F;
  f_gt0 : F -> bool
}.

Section Generic.

Context {F : Type} `{Arith F}.

(** The sum of the stored values of a row, accumulated from zero. *)
Definition row_total (r : list (Z * F)) : F :=
  foldl f_add f_zero (map snd r).

(** The element of a row at column [j]: stored values at the same
    position add up, and a position without a stored value is zero. *)
Definition row_entry (r : list (Z * F)) (j : nat) : F :=
  row_total (List.filter (fun e => fst e =? Z.of_nat j) r).

(** [m[i, j]]. *)
Definition entry (m : csr_matrix F) (i j : nat) : F :=
  row_entry (nth i (rows m) []) j.

(** [np.array(m.sum(axis=1)).ravel()]. *)
Definition sums_axis1 (m : csr_matrix F) : list F :=
  map row_total (rows m).

(** [np.array((m > 0).sum(axis=0)).ravel()]: per column, the rows whose
    element is positive. *)
Definition peak_counts (m : csr_matrix F) : list Z :=
  map (fun j => Z.of_nat
                  (length (List.filter (fun r => f_gt0 (row_entry r j))
                                       (rows m))))
      (seq 0 (snd (shape m))).

(** [np.log1p(m.shape[0] / peak_counts)] (lines 77 and 95). *)
Definition log_inv_peak_freq (m : csr_matrix F) : list F :=
  map (fun c => f_log1p (f_div (f_of_Z (Z.of_nat (fst (shape m))))
                               (f_of_Z c)))
      (peak_counts m).

(** [m.multiply(v[:, np.newaxis])]: every stored value of row [i] times
    [v[i]]. *)
Definition multiply_rows (v : list F) (rs : list (list (Z * F)))
  : list (list (Z * F)) :=
  zip_with (fun r x => map (fun e => (fst e, f_mul (snd e) x)) r) rs v.

(** [m.multiply(v[np.newaxis, :])]: every stored value of column [j]
    times [v[j]].  (The column indices of a sparse matrix lie within its
    shape.) *)
Definition multiply_cols (v : list F) (rs : list (list (Z * F)))
  : list (list (Z * F)) :=
  map (fun r =>
         map (fun e => (fst e, f_mul (snd e)
                                 (nth (Z.to_nat (fst e)) v f_zero)))
             r)
      rs.

(** One more stored entry of a row in canonical format: a value at a
    position that holds one already is added to it, any other is placed
    by its column. *)
Fixpoint add_entry (e : Z * F) (r : list (Z * F)) : list (Z * F) :=
  match r with
  | [] => [e]
  | e' :: r' =>
      if fst e <? fst e' then e :: r
      else if fst e =? fst e' then (fst e', f_add (snd e') (snd e)) :: r'
      else e' :: add_entry e r'
  end.

(** [sum_duplicates()] on one row: the column indices sorted, the values
    stored at one position added up. *)
Definition sum_duplicates (r : list (Z * F)) : list (Z * F) :=
  foldl (fun acc e => add_entry e acc) [] r.

(** The comparison [filtered_cells > 0] of line 76 leaves its operand in
    canonical format, and so does the conversion of line 81 its
    result. *)
Definition tf_idf (filtered_cells : csr_matrix F) : csr_matrix F :=
  let inv_sums := map (fun s => f_div f_one s) (sums_axis1 filtered_cells) in
  let log_inv_peak_freq := log_inv_peak_freq filtered_cells in
  let canonical := map sum_duplicates (rows filtered_cells) in
  let normalized := multiply_rows inv_sums canonical in
  let normalized := multiply_cols log_inv_peak_freq normalized in
  of_rows (snd (shape filtered_cells)) (map sum_duplicates normalized).

Definition logtf_idf (filtered_cells : csr_matrix F) (pseudocount : F)
  : csr_matrix F :=
  let log_inv_sums :=
    map (fun s => f_log1p (f_div pseudocount s))
        (sums_axis1 filtered_cells) in
  let log_inv_peak_freq := log_inv_peak_freq filtered_cells in
  let canonical := map sum_duplicates (rows filtered_cells) in
  let normalized := multiply_rows log_inv_sums canonical in
  let normalized := multiply_cols log_inv_peak_freq normalized in
  of_rows (snd (shape filtered_cells)) (map sum_duplicates normalized).

(** The keyword default [pseudocount=10**5]. *)
Definition logtf_idf_default (filtered_cells : csr_matrix F)
  : csr_matrix F :=
  logtf_idf filtered_cells (f_of_Z (10 ^ 5)).

End Generic.

(** Binary64 arithmetic.  [log1p] has no counterpart among the primitive
    operations and stays a parameter. *)
Definition float_arith (log1p : float -> float) : Arith float := {|
  f_zero := PrimFloat.zero;
  f_one := PrimFloat.one;
  f_add := PrimFloat.add;
  f_mul := PrimFloat.mul;
  f_div := PrimFloat.div;
  f_log1p := log1p;
  f_of_Z := fun z => PrimFloat.of_uint63 (Uint63.of_Z z);
  f_gt0 := fun x => PrimFloat.ltb PrimFloat.zero x
|}.

(** One cell with one read in the first of two peaks. *)
Definition float_example : csr_matrix float :=
  of_rows 2 [[(0, 1%float)]].

(** One cell over three peaks whose row is stored out of order, the
    third peak twice. *)
Definition unsorted_example : csr_matrix float :=
  of_rows 3 [[(2, 1%float); (0, 2%float); (2, 3%float)]].

End Tfidf.

(* ================================================================== *)
(** * Properties *)
(* ================================================================== *)

(** ** Interval overlap *)

Module OverlapFacts.
Import Overlap.

Lemma swap_padding_fwd g up down :
  g_strand g <> "rev" -> swap_padding g up down = (up, down).
Proof.
  intros Hs. unfold swap_padding.
  destruct (String.eqb_spec (g_strand g) "rev"); congruence.
Qed.

Lemma swap_padding_rev g up down :
  g_strand g = "rev" -> swap_padding g up down = (down, up).
Proof.
  intros Hs. unfold swap_padding. rewrite Hs. reflexivity.
Qed.

(** [overlap] written over the padded span. *)
Lemma overlap_unfold g f up down :
  overlap g f up down =
  if negb (String.eqb (g_chrom g) (f_chrom f)) then Some false
  else if (padded_hi g up down >=? f_start f)
          && (padded_lo g up down <=? f_start f) then Some true
  else if (padded_hi g up down >=? f_end f)
          && (padded_lo g up down <=? f_end f) then Some true
  else if (padded_lo g up down >=? f_start f)
          && (padded_hi g up down <=? f_end f) then Some true
  else None.
Proof.
  unfold overlap, padded_hi, padded_lo.
  destruct (swap_padding g up down) as [u d]. reflexivity.
Qed.

Lemma andb_geb_leb_true hi lo x :
  (hi >=? x) && (lo <=? x) = true <-> lo <= x <= hi.
Proof. rewrite andb_true_iff, Z.geb_le, Z.leb_le. lia. Qed.

Lemma andb_geb_leb_false hi lo x :
  (hi >=? x) && (lo <=? x) = false <-> ~ (lo <= x <= hi).
Proof.
  rewrite <- andb_geb_leb_true. destruct ((hi >=? x) && (lo <=? x)); split;
    congruence.
Qed.

(** C2, as amended: the first two examples evaluate as the specification
    says; the third, a reverse-strand gene (chr1, 100, 200) with
    upstream=50 and downstream=0 against the fragment (chr1, 60, 90),
    falls through all three tests and yields [None], because the exchange
    of the paddings moves the 50 bases to the end of the gene (span
    100..250). *)
Theorem overlap_examples :
  overlap_default gene_fwd (Fragment "chr1" 150 160) = Some true /\
  overlap_default gene_fwd (Fragment "chr2" 150 160) = Some false /\
  overlap gene_rev (Fragment "chr1" 60 90) 50 0 = None.
Proof. repeat split; reflexivity. Qed.

(** C2, as stated, fails: the third example does not return [True]. *)
Lemma overlap_examples_as_stated_fail :
  ~ (overlap_default gene_fwd (Fragment "chr1" 150 160) = Some true /\
     overlap_default gene_fwd (Fragment "chr2" 150 160) = Some false /\
     overlap gene_rev (Fragment "chr1" 60 90) 50 0 = Some true).
Proof. intros (_ & _ & H). vm_compute in H. discriminate H. Qed.

(** C6: [overlap] returns [False] when the chromosomes differ, [True] when
    they agree and one of the three containment conditions holds, and
    [None] (not [False]) when they agree and none of the three holds. *)
Theorem overlap_cases (g : gene) (f : fragment) (up down : Z) :
  (g_chrom g <> f_chrom f -> overlap g f up down = Some false) /\
  (g_chrom g = f_chrom f ->
   start_in_span g f up down \/ end_in_span g f up down \/
   gene_in_fragment g f up down ->
   overlap g f up down = Some true) /\
  (g_chrom g = f_chrom f ->
   ~ (start_in_span g f up down \/ end_in_span g f up down \/
      gene_in_fragment g f up down) ->
   overlap g f up down = None /\ overlap g f up down <> Some false).
Proof.
  rewrite overlap_unfold.
  unfold start_in_span, end_in_span, gene_in_fragment.
  destruct (String.eqb_spec (g_chrom g) (f_chrom f)) as [Hc | Hc]; simpl.
  - split; [congruence |].
    destruct ((padded_hi g up down >=? f_start f)
              && (padded_lo g up down <=? f_start f)) eqn:E1.
    { apply andb_geb_leb_true in E1. split; [reflexivity | tauto]. }
    apply andb_geb_leb_false in E1.
    destruct ((padded_hi g up down >=? f_end f)
              && (padded_lo g up down <=? f_end f)) eqn:E2.
    { apply andb_geb_leb_true in E2. split; [reflexivity | tauto]. }
    apply andb_geb_leb_false in E2.
    destruct ((padded_lo g up down >=? f_start f)
              && (padded_hi g up down <=? f_end f)) eqn:E3.
    { apply andb_true_iff in E3. rewrite Z.geb_le, Z.leb_le in E3.
      split; [reflexivity | tauto]. }
    apply andb_false_iff in E3.
    rewrite Z.geb_leb, !Z.leb_gt in E3.
    split; [intros _ H; exfalso; lia | intros _ _; split; congruence].
  - split; [reflexivity |]. split; intros; contradiction.
Qed.

(** The three cases of [overlap_cases] at concrete intervals. *)
Lemma overlap_cases_witness :
  overlap gene_fwd (Fragment "chr2" 150 160) 10 0 = Some false /\
  overlap gene_fwd (Fragment "chr1" 95 97) 10 0 = Some true /\
  (overlap gene_fwd (Fragment "chr1" 300 400) 10 0 = None /\
   overlap gene_fwd (Fragment "chr1" 300 400) 10 0 <> Some false).
Proof.
  split; [| split].
  - apply (overlap_cases gene_fwd (Fragment "chr2" 150 160) 10 0).
    simpl. discriminate.
  - apply (overlap_cases gene_fwd (Fragment "chr1" 95 97) 10 0).
    + reflexivity.
    + left. vm_compute. split; discriminate.
  - apply (overlap_cases gene_fwd (Fragment "chr1" 300 400) 10 0).
    + reflexivity.
    + vm_compute. intros [[H1 H2] | [[H1 H2] | [H1 H2]]];
        ((now apply H1) || (now apply H2)).
Defined.

End OverlapFacts.

(** ** Batched PCA *)

Module PcaFacts.
Import Py Pca.

Local Open Scope nat_scope.

Lemma div_mod_split (rows n_batches : nat) :
  n_batches <> 0 ->
  rows = n_batches * (rows / n_batches) + rows mod n_batches /\
  rows mod n_batches < n_batches.
Proof.
  intros Hn. split.
  - apply Nat.div_mod_eq.
  - apply Nat.mod_upper_bound, Hn.
Qed.

(** Every batch but the last keeps its plain bounds. *)
Lemma batch_bounds_inner (rows n_batches batch : nat) :
  S batch < n_batches ->
  batch_bounds rows (rows / n_batches) batch =
  (batch * (rows / n_batches), batch * (rows / n_batches) + rows / n_batches).
Proof.
  intros Hb. unfold batch_bounds.
  destruct (div_mod_split rows n_batches) as [Hr Hm]; [lia |].
  set (bs := rows / n_batches) in *.
  destruct (Z.ltb_spec (Z.of_nat rows - Z.of_nat (batch * bs + bs))
                       (Z.of_nat bs)) as [Hlt | Hge]; [| reflexivity].
  exfalso.
  assert (n_batches * bs >= (batch + 2) * bs) by (apply Nat.mul_le_mono_r; lia).
  nia.
Qed.

(** The last batch ends at the row count exactly when the remainder is
    smaller than one batch. *)
Lemma batch_bounds_last (rows n_batches : nat) :
  n_batches <> 0 ->
  batch_bounds rows (rows / n_batches) (n_batches - 1) =
  ((n_batches - 1) * (rows / n_batches), covered rows n_batches).
Proof.
  intros Hn. unfold batch_bounds, covered.
  destruct (div_mod_split rows n_batches) as [Hr Hm]; [lia |].
  set (bs := rows / n_batches) in *.
  set (r := rows mod n_batches) in *.
  assert (Hend : (n_batches - 1) * bs + bs = n_batches * bs) by nia.
  rewrite Hend.
  destruct (Nat.ltb_spec r bs) as [Hlt | Hge];
    destruct (Z.ltb_spec (Z.of_nat rows - Z.of_nat (n_batches * bs))
                         (Z.of_nat bs)) as [Hz | Hz];
    try reflexivity; exfalso; lia.
Qed.

Lemma covered_le (rows n_batches : nat) :
  n_batches <> 0 -> covered rows n_batches <= rows.
Proof.
  intros Hn. unfold covered.
  destruct (div_mod_split rows n_batches) as [Hr Hm]; [lia |].
  destruct (_ <? _); lia.
Qed.

Lemma covered_all_iff (rows n_batches : nat) :
  n_batches <> 0 ->
  covered rows n_batches = rows <->
  rows mod n_batches < rows / n_batches \/ rows mod n_batches = 0.
Proof.
  intros Hn. unfold covered.
  destruct (div_mod_split rows n_batches) as [Hr Hm]; [lia |].
  destruct (Nat.ltb_spec (rows mod n_batches) (rows / n_batches)); lia.
Qed.

Section Loop.

Context {Row Emb : Type}.
Variable zero : Emb.
Variable transform : Row -> Emb.
Variable X : list Row.

Local Abbreviation written := (written_prefix zero transform X).

Lemma written_0 : written 0 = replicate (length X) zero.
Proof.
  unfold written_prefix. rewrite take_0, Nat.sub_0_r. reflexivity.
Qed.

Lemma length_written k : k <= length X -> length (written k) = length X.
Proof.
  intros Hk. unfold written_prefix.
  rewrite length_app, length_map, length_take, length_replicate. lia.
Qed.

(** Writing the slice [start:end] next to a written prefix of [start] rows
    gives a written prefix of [end] rows. *)
Lemma assign_slice_written (start_idx end_idx : nat) :
  start_idx <= end_idx <= length X ->
  assign_slice start_idx end_idx
    (map transform (slice start_idx end_idx X)) (written start_idx)
  = written end_idx.
Proof.
  intros [Hse He]. unfold assign_slice, slice, written_prefix.
  assert (Hlen : length (map transform (take start_idx X)) = start_idx)
    by (rewrite length_map, length_take; lia).
  rewrite take_app_length' by (symmetry; exact Hlen).
  rewrite Nat.max_r by exact Hse.
  rewrite drop_app_ge by (rewrite Hlen; lia).
  rewrite Hlen, drop_replicate.
  rewrite app_assoc, <- map_app, take_take_drop.
  replace (start_idx + (end_idx - start_idx)) with end_idx by lia.
  replace (length X - start_idx - (end_idx - start_idx))
    with (length X - end_idx) by lia.
  reflexivity.
Qed.

Lemma transform_batch_written (batch_size batch start_idx end_idx : nat) :
  batch_bounds (length X) batch_size batch = (start_idx, end_idx) ->
  start_idx <= end_idx <= length X ->
  transform_batch transform X batch_size (written start_idx) batch
  = written end_idx.
Proof.
  intros Hb Hle. unfold transform_batch. rewrite Hb.
  apply assign_slice_written, Hle.
Qed.

(** The loop invariant: after [k] batches that are not the last, the
    first [k * batch_size] rows are written. *)
Lemma inner_batches_written (n_batches k : nat) :
  k < n_batches ->
  foldl (transform_batch transform X (length X / n_batches))
        (replicate (length X) zero) (seq 0 k)
  = written (k * (length X / n_batches)).
Proof.
  intros Hk. induction k as [| k IH].
  - simpl. symmetry. apply written_0.
  - rewrite seq_S, foldl_app, IH by lia. simpl.
    destruct (div_mod_split (length X) n_batches) as [Hr Hm]; [lia |].
    assert (n_batches * (length X / n_batches)
            >= (k + 1) * (length X / n_batches))
      by (apply Nat.mul_le_mono_r; lia).
    rewrite (transform_batch_written _ _ _
               (k * (length X / n_batches) + length X / n_batches)).
    + f_equal; lia.
    + apply batch_bounds_inner. lia.
    + lia.
Qed.

(** What the whole loop leaves in the embeddings matrix. *)
Lemma transform_in_batches_written (n_batches : nat) :
  n_batches <> 0 ->
  transform_in_batches zero transform X n_batches
  = written (covered (length X) n_batches).
Proof.
  intros Hn. unfold transform_in_batches.
  replace n_batches with (S (n_batches - 1)) at 2 by lia.
  rewrite seq_S, foldl_app, inner_batches_written by lia. simpl.
  apply transform_batch_written.
  - apply batch_bounds_last, Hn.
  - split; [| apply covered_le, Hn].
    unfold covered.
    destruct (div_mod_split (length X) n_batches) as [Hr Hm]; [lia |].
    destruct (_ <? _); nia.
Qed.

End Loop.

Section Results.

Context {Row Emb : Type}.
Variable zero : Emb.
Variable fit : list Row -> Row -> Emb.

(** For 1 <= n_batches <= rows, [pca] writes the transform of the first
    [covered rows n_batches] rows and leaves every later row at its zero
    initialisation. *)
Lemma pca_written (X : list Row) (num den n_batches size : nat) :
  train_size (length X) num den = Some size ->
  1 <= n_batches <= length X ->
  pca zero fit X num den n_batches =
  Some (written_prefix zero (fit (slice 0 size X)) X
          (covered (length X) n_batches)).
Proof.
  intros Hsize [Hn Hle]. unfold pca. rewrite Hsize.
  cbn [mbind option_bind].
  destruct (Nat.eqb_spec n_batches 0) as [? | _]; [lia |].
  destruct (Nat.ltb_spec (length X) n_batches) as [? | _]; [lia |].
  f_equal. apply transform_in_batches_written. lia.
Qed.

(** When the remainder is smaller than one batch, every row is written. *)
Lemma pca_populates_all (X : list Row) (num den n_batches size : nat) :
  train_size (length X) num den = Some size ->
  1 <= n_batches <= length X ->
  length X mod n_batches < length X / n_batches ->
  pca zero fit X num den n_batches = Some (map (fit (slice 0 size X)) X).
Proof.
  intros Hsize Hn Hr. rewrite (pca_written X num den n_batches size)
    by assumption.
  unfold written_prefix, covered.
  apply Nat.ltb_lt in Hr. rewrite Hr.
  rewrite take_ge, Nat.sub_diag, app_nil_r by lia. reflexivity.
Qed.

(** More batches than rows: the call raises. *)
Lemma pca_too_many_batches (X : list Row) (num den n_batches : nat) :
  length X < n_batches -> pca zero fit X num den n_batches = None.
Proof.
  intros Hlt. unfold pca.
  destruct (train_size _ _ _) as [size |]; [| reflexivity].
  cbn [mbind option_bind].
  destruct (Nat.eqb_spec n_batches 0) as [? | _]; [reflexivity |].
  destruct (Nat.ltb_spec (length X) n_batches) as [_ | ?]; [reflexivity | lia].
Qed.

End Results.

(** The widths of the batches: all of one batch size, but the last. *)
Lemma batch_widths_eq (rows n_batches : nat) :
  n_batches <> 0 ->
  batch_widths rows n_batches =
  replicate (n_batches - 1) (rows / n_batches)
  ++ [covered rows n_batches - (n_batches - 1) * (rows / n_batches)].
Proof.
  intros Hn. unfold batch_widths.
  replace n_batches with (S (n_batches - 1)) at 2 by lia.
  rewrite seq_S, map_app. simpl. f_equal.
  - assert (Hk : n_batches - 1 < n_batches) by lia.
    revert Hk. generalize (n_batches - 1) as k.
    induction k as [| k IH]; intros Hk; [reflexivity |].
    rewrite seq_S, map_app, IH by lia. cbn [map Nat.add].
    unfold batch_width. rewrite batch_bounds_inner by lia.
    replace (k * (rows / n_batches) + rows / n_batches
             - k * (rows / n_batches)) with (rows / n_batches) by lia.
    change [rows / n_batches] with (replicate 1 (rows / n_batches)).
    rewrite <- replicate_add. f_equal. lia.
  - unfold batch_width. rewrite batch_bounds_last by exact Hn. reflexivity.
Qed.

(** The widths sum to the number of rows written. *)
Lemma sum_batch_widths (rows n_batches : nat) :
  n_batches <> 0 ->
  sum_list (batch_widths rows n_batches) = covered rows n_batches.
Proof.
  intros Hn. rewrite batch_widths_eq by exact Hn.
  rewrite sum_list_with_app, sum_list_replicate. simpl.
  assert ((n_batches - 1) * (rows / n_batches) <= covered rows n_batches).
  { unfold covered.
    destruct (div_mod_split rows n_batches) as [Hr Hm]; [lia |].
    destruct (_ <? _); nia. }
  lia.
Qed.

(** C1 at five rows and three batches (train ratio 0.35 = 7/20): the
    batch size is 1, the remainder 2 is not smaller than the batch size,
    so the last batch is not widened; the three widths are 1, 1, 1, they
    sum to 3, and rows 3 and 4 of the embeddings keep their zeros. *)
Theorem pca_five_rows_three_batches
    {Row Emb : Type} (zero : Emb) (fit : list Row -> Row -> Emb)
    (x0 x1 x2 x3 x4 : Row) :
  let transform := fit [x0; x1] in
  pca zero fit [x0; x1; x2; x3; x4] 7 20 3 =
    Some [transform x0; transform x1; transform x2; zero; zero] /\
  batch_widths 5 3 = [1; 1; 1] /\
  sum_list (batch_widths 5 3) = 3.
Proof. repeat split; reflexivity. Qed.

(** With 1 <= B <= R the batch widths sum to R exactly when the remainder
    is smaller than a batch; otherwise [R mod B] trailing rows stay
    unwritten. *)
Lemma sum_batch_widths_all_iff (rows n_batches : nat) :
  1 <= n_batches <= rows ->
  sum_list (batch_widths rows n_batches) = rows <->
  rows mod n_batches < rows / n_batches.
Proof.
  intros [Hb Hr]. rewrite sum_batch_widths, covered_all_iff by lia.
  assert (0 < rows / n_batches) by (apply Nat.div_str_pos; lia).
  lia.
Qed.

End PcaFacts.

(** ** Python slices *)

Module PyFacts.
Import Py.

Lemma bound_in_range (len : nat) (z : Z) :
  0 <= z <= Z.of_nat len -> bound len z = Z.to_nat z.
Proof.
  intros Hz. unfold bound.
  destruct (Z.ltb_spec z 0); [lia |]. f_equal. lia.
Qed.

Lemma slice_z_in_range {A : Type} (a b : Z) (l : list A) :
  0 <= a -> a <= b -> b <= Z.of_nat (length l) ->
  slice_z a b l = take (Z.to_nat (b - a)) (drop (Z.to_nat a) l).
Proof.
  intros Ha Hab Hb. unfold slice_z, slice.
  rewrite !bound_in_range by lia. f_equal. lia.
Qed.

Lemma length_slice_z {A : Type} (a b : Z) (l : list A) :
  0 <= a -> a <= b -> b <= Z.of_nat (length l) ->
  Z.of_nat (length (slice_z a b l)) = b - a.
Proof.
  intros Ha Hab Hb. rewrite slice_z_in_range by assumption.
  rewrite length_take, length_drop. lia.
Qed.

Lemma slice_z_app {A : Type} (a b c : Z) (l : list A) :
  0 <= a -> a <= b -> b <= c -> c <= Z.of_nat (length l) ->
  slice_z a b l ++ slice_z b c l = slice_z a c l.
Proof.
  intros Ha Hab Hbc Hc. rewrite !slice_z_in_range by lia.
  replace (Z.to_nat b) with (Z.to_nat a + Z.to_nat (b - a))%nat by lia.
  rewrite <- drop_drop, take_take_drop. f_equal. lia.
Qed.

Lemma slice_z_empty {A : Type} (a : Z) (l : list A) : slice_z a a l = [].
Proof. unfold slice_z, slice. rewrite Nat.sub_diag. reflexivity. Qed.

Lemma slice_z_map {A B : Type} (f : A -> B) (a b : Z) (l : list A) :
  slice_z a b (map f l) = map f (slice_z a b l).
Proof.
  unfold slice_z, slice. rewrite length_map.
  change (map f) with (fmap (M:=list) f).
  rewrite fmap_take, fmap_drop. reflexivity.
Qed.

Lemma select_map_filter {A : Type} (f : A -> bool) (l : list A) :
  select (map f l) l = List.filter f l.
Proof.
  induction l as [| x l IH]; [reflexivity |].
  simpl. rewrite IH. reflexivity.
Qed.

Lemma slice_full {A : Type} (l : list A) : slice 0 (length l) l = l.
Proof. unfold slice. rewrite Nat.sub_0_r, drop_0. apply firstn_all. Qed.

End PyFacts.

(** ** Compressed-row matrices *)

Module CsrFacts.
Import Py PyFacts Csr.

Section Rows.

Context {V : Type}.
Implicit Types (r : list (Z * V)) (rs : list (list (Z * V))).
Implicit Types (E : list (Z * V)) (m : csr_matrix V) (f : h5file V).

(** The number of entries the rows [rs] hold together. *)
Local Abbreviation offset rs := (Z.of_nat (length (concat rs))).

Lemma pointers_from_cons (s : Z) r rs :
  pointers_from s (r :: rs)
  = s :: pointers_from (s + Z.of_nat (length r)) rs.
Proof. reflexivity. Qed.

Lemma pointers_from_head (s : Z) rs :
  exists tl, pointers_from s rs = s :: tl.
Proof. destruct rs; simpl; eauto. Qed.

Lemma length_pointers_from (s : Z) rs :
  length (pointers_from s rs) = S (length rs).
Proof.
  revert s. induction rs as [| r rs IH]; intros s; [reflexivity |].
  rewrite pointers_from_cons. simpl. rewrite IH. reflexivity.
Qed.

Lemma pointers_from_shift (c s : Z) rs :
  map (fun p => p - c) (pointers_from s rs) = pointers_from (s - c) rs.
Proof.
  revert s. induction rs as [| r rs IH]; intros s; [reflexivity |].
  rewrite !pointers_from_cons. simpl. rewrite IH. do 2 f_equal. lia.
Qed.

Lemma offset_cons r rs :
  offset (r :: rs) = Z.of_nat (length r) + offset rs.
Proof. simpl. rewrite length_app. lia. Qed.

Lemma pointers_from_lookup (s : Z) rs (i : nat) :
  (i <= length rs)%nat ->
  pointers_from s rs !! i = Some (s + offset (take i rs)).
Proof.
  revert s i. induction rs as [| r rs IH]; intros s i Hi.
  - simpl in Hi. assert (i = 0%nat) as -> by lia. simpl. f_equal. lia.
  - destruct i as [| i].
    + simpl. f_equal. lia.
    + rewrite pointers_from_cons. simpl lookup. simpl in Hi.
      rewrite IH by lia. rewrite firstn_cons, offset_cons. f_equal. lia.
Qed.

Lemma drop_pointers_from (s : Z) rs (k : nat) :
  (k <= length rs)%nat ->
  drop k (pointers_from s rs)
  = pointers_from (s + offset (take k rs)) (drop k rs).
Proof.
  revert s k. induction rs as [| r rs IH]; intros s k Hk.
  - simpl in Hk. assert (k = 0%nat) as -> by lia. simpl. f_equal. lia.
  - destruct k as [| k].
    + simpl. do 2 f_equal; lia.
    + rewrite pointers_from_cons. simpl drop. simpl in Hk.
      rewrite IH by lia. rewrite firstn_cons, offset_cons. f_equal. lia.
Qed.

Lemma take_pointers_from (s : Z) rs (k : nat) :
  take (S k) (pointers_from s rs) = pointers_from s (take k rs).
Proof.
  revert s k. induction rs as [| r rs IH]; intros s k.
  - simpl. rewrite !take_nil. reflexivity.
  - destruct k as [| k]; [reflexivity |].
    rewrite pointers_from_cons, firstn_cons, IH. reflexivity.
Qed.

(** The pointers of a partition are the pointers of its rows. *)
Lemma slice_pointers_from (s : Z) rs (batch_start batch_end : nat) :
  (batch_start <= batch_end <= length rs)%nat ->
  slice batch_start (batch_end + 1) (pointers_from s rs)
  = pointers_from (s + offset (take batch_start rs))
                  (slice batch_start batch_end rs).
Proof.
  intros [Hse He]. unfold slice.
  rewrite drop_pointers_from by lia.
  replace (batch_end + 1 - batch_start)%nat
    with (S (batch_end - batch_start)) by lia.
  apply take_pointers_from.
Qed.

Lemma adjacent_pointers_from_cons (s : Z) r rs :
  adjacent (pointers_from s (r :: rs))
  = (s, s + Z.of_nat (length r))
    :: adjacent (pointers_from (s + Z.of_nat (length r)) rs).
Proof.
  unfold adjacent. rewrite pointers_from_cons. simpl tail.
  destruct (pointers_from_head (s + Z.of_nat (length r)) rs) as [tl Htl].
  rewrite Htl. reflexivity.
Qed.

Lemma adjacent_pointers_from_nil (s : Z) :
  adjacent (pointers_from s (@nil (list (Z * V)))) = [].
Proof. reflexivity. Qed.

(** The degrees read off the pointers are the lengths of the rows. *)
Lemma diff_pointers_from (s : Z) rs :
  diff (pointers_from s rs) = map degree rs.
Proof.
  revert s. induction rs as [| r rs IH]; intros s; [reflexivity |].
  unfold diff in *. rewrite adjacent_pointers_from_cons. simpl.
  rewrite IH. f_equal. unfold degree. lia.
Qed.

(** Reading rows back: pointers laid out from [length pre] over entries
    that hold the rows after [pre] give the rows again. *)
Lemma rows_of_pointers_from (pre post : list (Z * V)) rs :
  map (fun p => slice_z (fst p) (snd p) (pre ++ concat rs ++ post))
      (adjacent (pointers_from (Z.of_nat (length pre)) rs))
  = rs.
Proof.
  revert pre. induction rs as [| r rs IH]; intros pre; [reflexivity |].
  rewrite adjacent_pointers_from_cons. simpl map. f_equal.
  - rewrite slice_z_in_range.
    + rewrite Nat2Z.id, drop_app_length. simpl concat.
      replace (Z.to_nat _) with (length r) by lia.
      rewrite <- app_assoc. apply take_app_length.
    + lia.
    + lia.
    + simpl concat. rewrite !length_app. lia.
  - specialize (IH (pre ++ r)).
    rewrite length_app, Nat2Z.inj_add in IH.
    simpl concat. rewrite <- !app_assoc in *. exact IH.
Qed.

Lemma rows_of_rows (cols : nat) rs : rows (of_rows cols rs) = rs.
Proof.
  unfold rows, of_rows, entries. simpl.
  rewrite zip_fst_snd.
  pose proof (rows_of_pointers_from [] [] rs) as H.
  simpl in H. rewrite app_nil_r in H. exact H.
Qed.

(** Pointers that never decrease and stay within the entries are the
    pointers of the rows they cut out. *)
Lemma decode_pointers E (p : Z) (rest : list Z) :
  0 <= p ->
  forallb (fun pr => fst pr <=? snd pr) (adjacent (p :: rest)) = true ->
  forallb (fun q => q <=? Z.of_nat (length E)) (p :: rest) = true ->
  let rs := map (fun pr => slice_z (fst pr) (snd pr) E)
                (adjacent (p :: rest)) in
  p :: rest = pointers_from p rs /\
  exists l, p <= l <= Z.of_nat (length E) /\ concat rs = slice_z p l E.
Proof.
  revert p. induction rest as [| q rest IH]; intros p Hp Hmono Hle.
  - simpl in *. rewrite andb_true_r in Hle. apply Z.leb_le in Hle.
    split; [reflexivity |]. exists p. rewrite slice_z_empty.
    split; [lia | reflexivity].
  - change (adjacent (p :: q :: rest)) with ((p, q) :: adjacent (q :: rest))
      in *.
    simpl in Hmono, Hle.
    apply andb_true_iff in Hmono as [Hpq Hmono]. apply Z.leb_le in Hpq.
    apply andb_true_iff in Hle as [Hp' Hle].
    assert (Hq : q <= Z.of_nat (length E)).
    { simpl in Hle. apply andb_true_iff in Hle as [Hq _].
      apply Z.leb_le in Hq. exact Hq. }
    destruct (IH q ltac:(lia) Hmono Hle) as [Hptr (l & Hl & Hcat)].
    simpl. split.
    + rewrite length_slice_z by lia.
      replace (p + (q - p)) with q by lia.
      f_equal. exact Hptr.
    + exists l. split; [lia |].
      simpl in Hcat. rewrite Hcat. apply slice_z_app; lia.
Qed.

Lemma entries_fst m :
  length (data m) = length (indices m) -> map fst (entries m) = indices m.
Proof. intros H. unfold entries. apply fst_zip. lia. Qed.

Lemma entries_snd m :
  length (data m) = length (indices m) -> map snd (entries m) = data m.
Proof. intros H. unfold entries. apply snd_zip. lia. Qed.

Lemma length_entries m :
  length (data m) = length (indices m) ->
  length (entries m) = length (data m).
Proof. intros H. unfold entries. rewrite length_zip. lia. Qed.

(** The parts of the well-formedness test. *)
Lemma pointers_ok_inv f :
  pointers_ok f = true ->
  length (X_data f) = length (X_indices f) /\
  (exists rest, X_indptr f = 0 :: rest) /\
  forallb (fun p => fst p <=? snd p) (adjacent (X_indptr f)) = true /\
  forallb (fun p => p <=? Z.of_nat (length (X_data f))) (X_indptr f) = true.
Proof.
  unfold pointers_ok. rewrite !andb_true_iff.
  intros [[[Hlen Hhead] Hmono] Hle].
  apply Nat.eqb_eq in Hlen. repeat split; try assumption.
  destruct (X_indptr f) as [| p rest]; [discriminate |].
  apply Z.eqb_eq in Hhead. subst p. eauto.
Qed.

(** A well-formed file stores the pointers of the rows of its matrix, and
    its entries begin with those rows. *)
Lemma whole_matrix_decode f (total_cols : nat) :
  pointers_ok f = true ->
  let rs := rows (whole_matrix f total_cols) in
  X_indptr f = pointers_from 0 rs /\
  length rs = (length (X_indptr f) - 1)%nat /\
  exists post, entries (whole_matrix f total_cols) = concat rs ++ post.
Proof.
  intros Hok.
  destruct (pointers_ok_inv f Hok) as (Hlen & [rest Hrest] & Hmono & Hle).
  set (m := whole_matrix f total_cols).
  assert (HE : length (entries m) = length (X_data f))
    by (apply (length_entries m); exact Hlen).
  unfold rows. change (indptr m) with (X_indptr f).
  rewrite Hrest in *. rewrite <- HE in Hle.
  destruct (decode_pointers (entries m) 0 rest ltac:(lia) Hmono Hle)
    as [Hptr (l & Hl & Hcat)].
  cbv zeta. split; [exact Hptr | split].
  - rewrite length_map. unfold adjacent. rewrite length_zip.
    cbn [tail length]. lia.
  - exists (drop (Z.to_nat l) (entries m)).
    rewrite Hcat, slice_z_in_range by lia.
    rewrite Z.sub_0_r. change (Z.to_nat 0) with 0%nat. rewrite drop_0.
    symmetry. apply take_drop.
Qed.

(** Slicing the entries between the pointers of two rows gives the rows
    in between. *)
Lemma slice_z_concat (A B C : list (list (Z * V))) (post : list (Z * V)) :
  slice_z (offset A) (offset (A ++ B)) (concat (A ++ B ++ C) ++ post)
  = concat B.
Proof.
  rewrite !concat_app, !length_app, <- !app_assoc.
  rewrite slice_z_in_range.
  - rewrite Nat2Z.id, drop_app_length.
    replace (Z.to_nat _) with (length (concat B)) by lia.
    apply take_app_length.
  - lia.
  - lia.
  - rewrite !length_app. lia.
Qed.

Lemma split_at_bounds rs (batch_start batch_end : nat) :
  (batch_start <= batch_end)%nat ->
  take batch_end rs
  = take batch_start rs ++ slice batch_start batch_end rs /\
  rs = take batch_start rs ++ slice batch_start batch_end rs
       ++ drop batch_end rs.
Proof.
  intros Hse. unfold slice.
  assert (H : take batch_end rs
              = take batch_start rs
                ++ take (batch_end - batch_start) (drop batch_start rs)).
  { rewrite take_take_drop. f_equal. lia. }
  split; [exact H |].
  rewrite app_assoc, <- H. symmetry. apply take_drop.
Qed.

Lemma make_csr_Some (d : list V) (i p : list Z) (sh : nat * nat) m :
  make_csr d i p sh = Some m ->
  m = CsrMatrix d i p sh /\ length d = length i /\
  length p = (fst sh + 1)%nat.
Proof.
  unfold make_csr.
  destruct (Nat.eqb_spec (length d) (length i));
    destruct (Nat.eqb_spec (length p) (fst sh + 1)); simpl;
    intros H; inversion H; auto.
Qed.

(** What the reader builds before it filters, read off the code: the
    fields of the result whenever the reader does not raise. *)
Lemma partial_sparse_array_fields f (total_cols batch_start batch_end : nat)
    m :
  partial_sparse_array f total_cols batch_start batch_end = Some m ->
  exists start_ptr end_ptr,
    X_indptr f !! batch_start = Some start_ptr /\
    X_indptr f !! batch_end = Some end_ptr /\
    data m = slice_z start_ptr end_ptr (X_data f) /\
    indices m = slice_z start_ptr end_ptr (X_indices f) /\
    indptr m = map (fun p => p - start_ptr)
                   (slice batch_start (batch_end + 1) (X_indptr f)) /\
    shape m = ((batch_end - batch_start)%nat, total_cols) /\
    length (indptr m) = (batch_end - batch_start + 1)%nat /\
    indptr m !! 0%nat = Some 0.
Proof.
  unfold partial_sparse_array. intros H.
  destruct (X_indptr f !! batch_start) as [start_ptr |] eqn:Hs;
    [| discriminate].
  destruct (X_indptr f !! batch_end) as [end_ptr |] eqn:He;
    [| discriminate].
  simpl in H.
  destruct (slice batch_start (batch_end + 1) (X_indptr f) !! 0%nat)
    as [first |] eqn:Hf; [| discriminate].
  simpl in H. apply make_csr_Some in H as (-> & _ & Hlen).
  assert (first = start_ptr) as ->.
  { unfold slice in Hf. rewrite lookup_take in Hf.
    destruct (decide (0 < batch_end + 1 - batch_start)%nat);
      [| discriminate].
    rewrite lookup_drop, Nat.add_0_r in Hf. congruence. }
  exists start_ptr, end_ptr. simpl in *.
  repeat split; try reflexivity; try assumption.
  rewrite list_lookup_fmap, Hf. simpl. f_equal. lia.
Qed.

(** On a well-formed file the reader does not raise, and what it builds
    is the matrix of the rows [batch_start, batch_end) of the file. *)
Lemma partial_sparse_array_rows f (total_cols batch_start batch_end : nat) :
  pointers_ok f = true ->
  (batch_start <= batch_end < length (X_indptr f))%nat ->
  partial_sparse_array f total_cols batch_start batch_end
  = Some (of_rows total_cols
            (slice batch_start batch_end
                   (rows (whole_matrix f total_cols)))).
Proof.
  intros Hok [Hse He].
  destruct (whole_matrix_decode f total_cols Hok) as (Hptr & Hlen & post & HE).
  destruct (pointers_ok_inv f Hok) as (Hdi & _).
  set (rs := rows (whole_matrix f total_cols)) in *.
  destruct (split_at_bounds rs batch_start batch_end Hse) as [Htake Hsplit].
  set (B := slice batch_start batch_end rs) in *.
  assert (HlenB : length B = (batch_end - batch_start)%nat).
  { unfold B, slice. rewrite length_take, length_drop. lia. }
  unfold partial_sparse_array.
  rewrite Hptr.
  rewrite !pointers_from_lookup by lia. cbn [mbind option_bind].
  rewrite slice_pointers_from by lia. fold B.
  rewrite (pointers_from_lookup _ B 0) by lia.
  cbn [mbind option_bind].
  rewrite pointers_from_shift.
  match goal with
  | |- context [pointers_from ?z B] =>
      replace z with 0 by (rewrite take_0; simpl; lia)
  end.
  assert (Hcat : slice_z (0 + offset (take batch_start rs))
                         (0 + offset (take batch_end rs))
                         (entries (whole_matrix f total_cols))
                 = concat B).
  { rewrite HE, !Z.add_0_l, Htake. rewrite Hsplit at 3.
    apply slice_z_concat. }
  assert (Hd : slice_z (0 + offset (take batch_start rs))
                       (0 + offset (take batch_end rs)) (X_data f)
               = map snd (concat B)).
  { rewrite <- Hcat, <- slice_z_map.
    rewrite (entries_snd (whole_matrix f total_cols)); [reflexivity |].
    exact Hdi. }
  assert (Hi : slice_z (0 + offset (take batch_start rs))
                       (0 + offset (take batch_end rs)) (X_indices f)
               = map fst (concat B)).
  { rewrite <- Hcat, <- slice_z_map.
    rewrite (entries_fst (whole_matrix f total_cols)); [reflexivity |].
    exact Hdi. }
  rewrite Hd, Hi. unfold make_csr, of_rows.
  rewrite !length_map, length_pointers_from, HlenB. simpl fst.
  rewrite Nat.eqb_refl.
  replace (S (batch_end - batch_start) =? batch_end - batch_start + 1)%nat
    with true by (symmetry; apply Nat.eqb_eq; lia).
  reflexivity.
Qed.

(** The degree filter keeps the rows whose length passes the test. *)
Lemma degree_filter_of_rows (min_g max_g : Z) (cols : nat) rs :
  degree_filter min_g max_g (of_rows cols rs)
  = of_rows cols (List.filter (degree_ok min_g max_g) rs).
Proof.
  unfold degree_filter, select_rows, degree_query.
  rewrite rows_of_rows. simpl indptr. simpl shape. simpl snd.
  rewrite diff_pointers_from, map_map.
  f_equal. apply (select_map_filter (degree_ok min_g max_g)).
Qed.

Lemma degree_filter_whole (min_g max_g : Z) f (total_cols : nat) :
  pointers_ok f = true ->
  degree_filter min_g max_g (whole_matrix f total_cols)
  = of_rows total_cols
      (List.filter (degree_ok min_g max_g)
                   (rows (whole_matrix f total_cols))).
Proof.
  intros Hok.
  destruct (whole_matrix_decode f total_cols Hok) as (Hptr & _ & _).
  unfold degree_filter, select_rows, degree_query.
  change (indptr (whole_matrix f total_cols)) with (X_indptr f).
  rewrite Hptr at 1. rewrite diff_pointers_from, map_map.
  simpl shape. simpl snd.
  f_equal. apply (select_map_filter (degree_ok min_g max_g)).
Qed.

(** On a well-formed file the reader returns the rows of its range whose
    degree passes the test. *)
Lemma read_partition_rows f (total_cols batch_start batch_end : nat)
    (min_g max_g : Z) :
  pointers_ok f = true ->
  (batch_start <= batch_end < length (X_indptr f))%nat ->
  _read_partition_to_sparse_matrix f total_cols batch_start batch_end
                                   min_g max_g
  = Some (of_rows total_cols
            (List.filter (degree_ok min_g max_g)
               (slice batch_start batch_end
                      (rows (whole_matrix f total_cols))))).
Proof.
  intros Hok Hr. unfold _read_partition_to_sparse_matrix.
  rewrite partial_sparse_array_rows by assumption.
  cbn [mbind option_bind]. rewrite degree_filter_of_rows. reflexivity.
Qed.

Lemma slice_app (a b c : nat) rs :
  (a <= b <= c)%nat -> slice a b rs ++ slice b c rs = slice a c rs.
Proof.
  intros [Hab Hbc]. unfold slice.
  replace (drop b rs) with (drop (b - a) (drop a rs))
    by (rewrite drop_drop; f_equal; lia).
  rewrite take_take_drop. f_equal. lia.
Qed.

Lemma adjacent_cons2 {A : Type} (x y : A) (l : list A) :
  adjacent (x :: y :: l) = (x, y) :: adjacent (y :: l).
Proof. reflexivity. Qed.

(** Boundaries that never decrease cut a range into consecutive slices. *)
Lemma partitions_cover rs (b n : nat) (rest : list nat) :
  forallb (fun p => (fst p <=? snd p)%nat) (adjacent (b :: rest)) = true ->
  last (b :: rest) = Some n ->
  (b <= n)%nat /\
  Forall (fun p => (fst p <= snd p <= n)%nat) (partitions (b :: rest)) /\
  concat (map (fun p => slice (fst p) (snd p) rs) (partitions (b :: rest)))
  = slice b n rs.
Proof.
  unfold partitions.
  revert b. induction rest as [| c rest IH]; intros b Hmono Hlast.
  - simpl in Hlast. injection Hlast as <-.
    split; [lia |]. split; [constructor |].
    unfold slice. rewrite Nat.sub_diag. reflexivity.
  - rewrite adjacent_cons2 in *. simpl in Hmono.
    apply andb_true_iff in Hmono as [Hbc Hmono]. apply Nat.leb_le in Hbc.
    rewrite last_cons_cons in Hlast.
    destruct (IH c Hmono Hlast) as (Hcn & Hall & Hcat).
    split; [lia |]. split.
    + constructor; [simpl; lia | exact Hall].
    + simpl. rewrite Hcat. apply slice_app. lia.
Qed.

Lemma filter_concat {A : Type} (g : A -> bool) (ls : list (list A)) :
  List.filter g (concat ls) = concat (map (List.filter g) ls).
Proof.
  induction ls as [| l ls IH]; [reflexivity |].
  simpl. rewrite List.filter_app, IH. reflexivity.
Qed.

(** Reading every partition of a list of ranges within the file. *)
Lemma read_ranges f (total_cols : nat) (min_g max_g : Z)
    (ps : list (nat * nat)) :
  pointers_ok f = true ->
  Forall (fun p => (fst p <= snd p < length (X_indptr f))%nat) ps ->
  mapM (fun p => _read_partition_to_sparse_matrix f total_cols
                   (fst p) (snd p) min_g max_g) ps
  = Some (map (fun p => of_rows total_cols
                          (List.filter (degree_ok min_g max_g)
                             (slice (fst p) (snd p)
                                    (rows (whole_matrix f total_cols)))))
              ps).
Proof.
  intros Hok Hall. induction Hall as [| p ps Hp Hall IH]; [reflexivity |].
  cbn [mapM]. rewrite read_partition_rows by assumption.
  cbn [mbind option_bind]. rewrite IH. reflexivity.
Qed.

Lemma splits_inv (n : nat) (bs : list nat) :
  splits n bs = true ->
  exists rest, bs = 0%nat :: rest /\
    forallb (fun p => (fst p <=? snd p)%nat) (adjacent bs) = true /\
    last bs = Some n.
Proof.
  unfold splits. rewrite !andb_true_iff. intros [[Hhead Hmono] Hlast].
  apply bool_decide_eq_true in Hlast.
  destruct bs as [| b rest]; [discriminate |].
  apply Nat.eqb_eq in Hhead. subst b. eauto.
Qed.

Lemma rows_of_filtered_ranges (total_cols : nat) (g : list (Z * V) -> bool)
    rs (ps : list (nat * nat)) :
  concat (map rows
            (map (fun p => of_rows total_cols
                             (List.filter g (slice (fst p) (snd p) rs)))
                 ps))
  = List.filter g (concat (map (fun p => slice (fst p) (snd p) rs) ps)).
Proof.
  rewrite filter_concat, !map_map. f_equal.
  apply map_ext. intros p. apply rows_of_rows.
Qed.

Lemma length_rows_of_rows (cols : nat) rs :
  fst (shape (of_rows cols rs)) = length rs.
Proof. reflexivity. Qed.

Lemma sum_row_counts (cols : nat) (rss : list (list (list (Z * V)))) :
  sum_list (map (fun m => fst (shape m)) (map (of_rows cols) rss))
  = length (concat rss).
Proof.
  induction rss as [| rs rss IH]; [reflexivity |].
  simpl. rewrite length_app, <- IH. reflexivity.
Qed.

Lemma forallb_cols (cols : nat) (rss : list (list (list (Z * V)))) :
  forallb (fun b => (snd (shape b) =? cols)%nat) (map (of_rows cols) rss)
  = true.
Proof.
  induction rss as [| rs rss IH]; [reflexivity |].
  simpl. rewrite Nat.eqb_refl. exact IH.
Qed.

Lemma concat_rows_of_rows (cols : nat) (rss : list (list (list (Z * V)))) :
  concat (map rows (map (of_rows cols) rss)) = concat rss.
Proof.
  f_equal. rewrite map_map. rewrite <- (map_id rss) at 2.
  apply map_ext. intros rs. apply rows_of_rows.
Qed.

(** Stacking matrices built from rows stacks the rows. *)
Lemma vstack_of_rows (cols : nat) (rss : list (list (list (Z * V)))) :
  rss <> [] ->
  vstack (map (of_rows cols) rss) = Some (of_rows cols (concat rss)).
Proof.
  intros Hne. destruct rss as [| rs rss]; [contradiction |].
  pose proof (forallb_cols cols (rs :: rss)) as Hcols.
  pose proof (concat_rows_of_rows cols (rs :: rss)) as Hcat.
  unfold vstack. cbn [map] in *.
  match goal with
  | |- (if ?t then _ else _) = _ =>
      replace t with true by (symmetry; exact Hcols)
  end.
  rewrite Hcat. reflexivity.
Qed.

(** C5: on a well-formed file and a row range within it, the reader
    builds a matrix of shape (batch_end - batch_start, total_cols) whose
    pointer array has batch_end - batch_start + 1 elements, starts at 0
    and is the slice of the file's pointers less the first of them; its
    values and indices are the file's, sliced from the first to the last
    pointer of the range; and the result keeps exactly the rows whose
    degree d (the pointer difference, which is the number of stored
    entries of the row) has min_genes_per_cell <= d <= max_genes_per_cell. *)
Theorem read_partition_invariants f (total_cols batch_start batch_end : nat)
    (min_genes_per_cell max_genes_per_cell : Z) :
  pointers_ok f = true ->
  (batch_start <= batch_end < length (X_indptr f))%nat ->
  exists m start_ptr end_ptr,
    partial_sparse_array f total_cols batch_start batch_end = Some m /\
    X_indptr f !! batch_start = Some start_ptr /\
    X_indptr f !! batch_end = Some end_ptr /\
    shape m = ((batch_end - batch_start)%nat, total_cols) /\
    length (indptr m) = (batch_end - batch_start + 1)%nat /\
    indptr m !! 0%nat = Some 0 /\
    indptr m = map (fun p => p - start_ptr)
                   (slice batch_start (batch_end + 1) (X_indptr f)) /\
    data m = slice_z start_ptr end_ptr (X_data f) /\
    indices m = slice_z start_ptr end_ptr (X_indices f) /\
    diff (indptr m) = map degree (rows m) /\
    _read_partition_to_sparse_matrix f total_cols batch_start batch_end
      min_genes_per_cell max_genes_per_cell
    = Some (degree_filter min_genes_per_cell max_genes_per_cell m) /\
    rows (degree_filter min_genes_per_cell max_genes_per_cell m)
    = List.filter (degree_ok min_genes_per_cell max_genes_per_cell)
                  (rows m).
Proof.
  intros Hok Hr.
  pose proof (partial_sparse_array_rows f total_cols batch_start batch_end
                Hok Hr) as Hm.
  destruct (partial_sparse_array_fields f total_cols batch_start batch_end
              _ Hm)
    as (start_ptr & end_ptr & Hs & He & Hd & Hi & Hp & Hsh & Hlen & H0).
  eexists _, start_ptr, end_ptr.
  split; [exact Hm |].
  repeat (split; [assumption |]).
  split; [| split].
  - rewrite rows_of_rows. apply diff_pointers_from.
  - unfold _read_partition_to_sparse_matrix. rewrite Hm. reflexivity.
  - rewrite degree_filter_of_rows, !rows_of_rows. reflexivity.
Qed.

(** C4: on a well-formed file, for every split of its rows into
    contiguous partitions, the partitions' outputs concatenated hold
    exactly the rows, in the same order, that the degree filter keeps of
    the whole matrix; so their row counts add up to its row count, and
    the stacked matrix is the filtered whole matrix. *)
Theorem partitioned_filter_eq_whole f (total_cols : nat) (bs : list nat)
    (min_genes_per_cell max_genes_per_cell : Z) :
  pointers_ok f = true ->
  splits (length (X_indptr f) - 1) bs = true ->
  let whole := degree_filter min_genes_per_cell max_genes_per_cell
                 (whole_matrix f total_cols) in
  exists parts,
    read_partitions f total_cols bs min_genes_per_cell max_genes_per_cell
    = Some parts /\
    length parts = length (partitions bs) /\
    concat (map rows parts) = rows whole /\
    sum_list (map (fun m => fst (shape m)) parts) = fst (shape whole) /\
    (parts <> [] -> vstack parts = Some whole).
Proof.
  intros Hok Hsplit whole.
  destruct (splits_inv _ _ Hsplit) as (rest & -> & Hmono & Hlast).
  destruct (whole_matrix_decode f total_cols Hok) as (Hptr & Hlen & _).
  set (rs := rows (whole_matrix f total_cols)) in *.
  destruct (partitions_cover rs 0 _ rest Hmono Hlast)
    as (_ & Hall & Hcat).
  assert (Hpos : (0 < length (X_indptr f))%nat).
  { rewrite Hptr, length_pointers_from. lia. }
  assert (Hwhole : whole
                   = of_rows total_cols
                       (List.filter
                          (degree_ok min_genes_per_cell max_genes_per_cell)
                          rs))
    by (apply degree_filter_whole; exact Hok).
  assert (Hrows : concat
            (map (fun p => List.filter
                             (degree_ok min_genes_per_cell
                                        max_genes_per_cell)
                             (slice (fst p) (snd p) rs))
                 (partitions (0%nat :: rest)))
          = List.filter (degree_ok min_genes_per_cell max_genes_per_cell)
                        rs).
  { rewrite <- (map_map (fun p => slice (fst p) (snd p) rs)
                        (List.filter _)).
    rewrite <- filter_concat, Hcat, <- Hlen. rewrite slice_full.
    reflexivity. }
  eexists. split.
  { unfold read_partitions. apply read_ranges; [exact Hok |].
    eapply Forall_impl; [exact Hall |]. simpl. intros p Hp. lia. }
  fold rs. split; [apply length_map |]. split; [| split].
  - rewrite rows_of_filtered_ranges, Hcat, <- Hlen, slice_full.
    rewrite Hwhole, rows_of_rows. reflexivity.
  - rewrite <- (map_map (fun p => List.filter _ (slice (fst p) (snd p) rs))
                        (of_rows total_cols)).
    rewrite sum_row_counts, Hrows, Hwhole. reflexivity.
  - rewrite <- (map_map (fun p => List.filter _ (slice (fst p) (snd p) rs))
                        (of_rows total_cols)).
    intros Hne. rewrite vstack_of_rows.
    + rewrite Hrows, Hwhole. reflexivity.
    + intros Hnil. apply Hne. rewrite Hnil. reflexivity.
Qed.

End Rows.

(** A range of [sample_file] that satisfies the hypotheses of C5. *)
Lemma read_partition_invariants_witness :
  exists m start_ptr end_ptr,
    partial_sparse_array sample_file 3 1 3 = Some m /\
    X_indptr sample_file !! 1%nat = Some start_ptr /\
    X_indptr sample_file !! 3%nat = Some end_ptr /\
    shape m = ((3 - 1)%nat, 3%nat) /\
    length (indptr m) = (3 - 1 + 1)%nat /\
    indptr m !! 0%nat = Some 0 /\
    indptr m = map (fun p => p - start_ptr)
                   (slice 1 (3 + 1) (X_indptr sample_file)) /\
    data m = slice_z start_ptr end_ptr (X_data sample_file) /\
    indices m = slice_z start_ptr end_ptr (X_indices sample_file) /\
    diff (indptr m) = map degree (rows m) /\
    _read_partition_to_sparse_matrix sample_file 3 1 3 1 3
    = Some (degree_filter 1 3 m) /\
    rows (degree_filter 1 3 m) = List.filter (degree_ok 1 3) (rows m).
Proof.
  apply (read_partition_invariants sample_file 3 1 3 1 3).
  - reflexivity.
  - simpl. lia.
Defined.

(** A split of [sample_file] that satisfies the hypotheses of C4. *)
Lemma partitioned_filter_eq_whole_witness :
  let whole := degree_filter 1 2 (whole_matrix sample_file 3) in
  exists parts,
    read_partitions sample_file 3 [0; 3; 4]%nat 1 2 = Some parts /\
    length parts = length (partitions [0; 3; 4]%nat) /\
    concat (map rows parts) = rows whole /\
    sum_list (map (fun m => fst (shape m)) parts) = fst (shape whole) /\
    (parts <> [] -> vstack parts = Some whole).
Proof.
  apply (partitioned_filter_eq_whole sample_file 3 [0; 3; 4]%nat 1 2);
    reflexivity.
Defined.

End CsrFacts.

(** ** The distributed reducer *)

Module ReducerFacts.
Import Csr Reducer.

Lemma imap_fst_snd {A B : Type} (g : nat -> B) (l : list A) :
  map fst (imap (fun k x => (g k, x)) l) = imap (fun k _ => g k) l /\
  map snd (imap (fun k x => (g k, x)) l) = l.
Proof.
  revert g. induction l as [| x l IH]; intros g; [split; reflexivity |].
  simpl. destruct (IH (g ∘ S)) as [H1 H2].
  split; f_equal; assumption.
Qed.

Section Sums.

Context {V : Type} `{Dtype V}.

(** Without a default client the call raises, whatever is passed. *)
Lemma sum_csr_matrix_no_default (csr_matrix : list (csr_matrix V))
    (client : Client) (ax : axis) :
  sum_csr_matrix (Runtime None) csr_matrix client ax = None.
Proof. reflexivity. Qed.

(** The results the tasks return, one per partition. *)
Lemma sum_csr_matrix_objs (d : Client) (ax : axis)
    (csr_matrix : list (csr_matrix V)) :
  map snd
    (map (fun wp : worker * Csr.csr_matrix V =>
            (fst wp, csr_sum ax (snd wp)))
         (_extract_partitions d csr_matrix))
  = map (csr_sum ax) csr_matrix.
Proof.
  destruct (imap_fst_snd (who_has d) csr_matrix) as [_ Hsnd].
  rewrite map_map. cbn [snd]. unfold _extract_partitions.
  rewrite <- (map_map snd (csr_sum ax)), Hsnd. reflexivity.
Qed.

(** The tasks are pinned to the workers the default client reports. *)
Lemma sum_csr_matrix_placement (rt : runtime)
    (csr_matrix : list (csr_matrix V)) (client : Client) (ax : axis)
    (r : reduction) :
  sum_csr_matrix rt csr_matrix client ax = Some r ->
  exists d, default_client rt = Some d /\
    placement r = imap (fun k _ => who_has d k) csr_matrix.
Proof.
  unfold sum_csr_matrix. intros Hr.
  destruct (default_client rt) as [d |]; [| discriminate].
  exists d. split; [reflexivity |]. simpl in Hr.
  destruct (concatenate ax _) as [objs |]; [| discriminate].
  simpl in Hr. injection Hr as <-. simpl.
  rewrite map_map. simpl.
  apply (imap_fst_snd (who_has d) csr_matrix).
Qed.

(** C10: [sum_csr_matrix] does not use its [client] parameter: with the
    same process-wide state, partitioned matrix and axis, any two client
    arguments give the same outcome, the same tasks on the same workers
    and the same result, or the same failure. *)
Theorem sum_csr_matrix_ignores_client (rt : runtime)
    (csr_matrix : list (csr_matrix V)) (client1 client2 : Client)
    (ax : axis) :
  sum_csr_matrix rt csr_matrix client1 ax
  = sum_csr_matrix rt csr_matrix client2 ax.
Proof. unfold sum_csr_matrix. destruct (default_client rt); reflexivity. Qed.

End Sums.

(** Two default clients give two placements for the same arguments. *)
Lemma sum_csr_matrix_depends_on_default :
  sum_csr_matrix (Runtime (Some client_a)) [whole_matrix sample_file 3]
                 client_a Axis0
  <> sum_csr_matrix (Runtime (Some client_b)) [whole_matrix sample_file 3]
                    client_a Axis0.
Proof. vm_compute. discriminate. Qed.

End ReducerFacts.

(** ** Peak filter *)

Module PeaksFacts.
Import Py PyFacts Peaks.

Lemma distinct_NoDup (l : list nat) : distinct l = true -> NoDup l.
Proof.
  induction l as [| x l IH]; simpl; intros H; [constructor |].
  apply andb_true_iff in H as [Hx Hl].
  apply NoDup_cons. split; [| exact (IH Hl)].
  intros Hin. apply negb_true_iff in Hx.
  assert (existsb (Nat.eqb x) l = true) as Hex.
  { apply existsb_exists. exists x. split.
    - apply list_elem_of_In, Hin.
    - apply Nat.eqb_refl. }
  congruence.
Qed.

(** The parts of the promise of [np.argsort]. *)
Lemma is_argsort_inv (freq : list Q) (order : list nat) :
  is_argsort freq order = true ->
  length order = length freq /\
  Forall (fun j => (j < length freq)%nat) order /\
  NoDup order /\
  forallb (fun p => Qle_bool (key freq (fst p)) (key freq (snd p)))
          (zip order (tail order)) = true.
Proof.
  unfold is_argsort. rewrite !andb_true_iff.
  intros [[[Hlen Hb] Hd] Hs].
  apply Nat.eqb_eq in Hlen.
  repeat split; try assumption.
  - apply Forall_forall. intros j Hj.
    rewrite forallb_forall in Hb.
    apply Nat.ltb_lt, Hb, list_elem_of_In, Hj.
  - apply distinct_NoDup, Hd.
Qed.

(** Every column index occurs in the result of the sort. *)
Lemma argsort_covers (freq : list Q) (order : list nat) (k : nat) :
  is_argsort freq order = true ->
  (k < length freq)%nat -> k ∈ order.
Proof.
  intros H Hk. destruct (is_argsort_inv _ _ H) as (Hlen & Hb & Hnd & _).
  assert (Hperm : order ≡ₚ seq 0 (length freq)).
  { apply submseteq_length_Permutation.
    - apply NoDup_submseteq; [exact Hnd |].
      intros x Hx. rewrite Forall_forall in Hb.
      apply elem_of_seq. specialize (Hb x Hx). lia.
    - rewrite length_seq. lia. }
  rewrite Hperm. apply elem_of_seq. lia.
Qed.

Lemma sorted_head (freq : list Q) (x : nat) (l : list nat) :
  forallb (fun p => Qle_bool (key freq (fst p)) (key freq (snd p)))
          (zip (x :: l) l) = true ->
  forall b, b ∈ l -> (key freq x <= key freq b)%Q.
Proof.
  revert x. induction l as [| y l IH]; intros x H b Hb.
  - inversion Hb.
  - simpl in H. apply andb_true_iff in H as [Hxy Hl].
    apply Qle_bool_iff in Hxy. simpl in Hxy.
    apply elem_of_cons in Hb as [-> | Hb]; [exact Hxy |].
    eapply Qle_trans; [exact Hxy |]. apply (IH y Hl b Hb).
Qed.

(** In a sorted order every earlier index has a frequency no larger
    than every later one. *)
Lemma sorted_split (freq : list Q) (l1 l2 : list nat) :
  forallb (fun p => Qle_bool (key freq (fst p)) (key freq (snd p)))
          (zip (l1 ++ l2) (tail (l1 ++ l2))) = true ->
  forall a b, a ∈ l1 -> b ∈ l2 -> (key freq a <= key freq b)%Q.
Proof.
  induction l1 as [| x l1 IH]; intros H a b Ha Hb.
  - inversion Ha.
  - simpl in H. apply elem_of_cons in Ha as [-> | Ha].
    + apply (sorted_head freq x (l1 ++ l2) H).
      apply elem_of_app. right. exact Hb.
    + apply IH; try assumption.
      destruct (l1 ++ l2) as [| y l]; [reflexivity |].
      simpl in H. apply andb_true_iff in H as [_ H]. exact H.
Qed.

(** [a[-n:]] keeps the last [n] elements when [1 <= n <= len(a)]. *)
Lemma slice_from_neg {A : Type} (n : Z) (l : list A) :
  1 <= n <= Z.of_nat (length l) ->
  slice_from (- n) l = drop (length l - Z.to_nat n) l.
Proof.
  intros Hn. unfold slice_from, bound.
  destruct (Z.ltb_spec (- n) 0); [| lia]. f_equal. lia.
Qed.

(** [a[-0:]] is the whole array. *)
Lemma slice_from_zero {A : Type} (l : list A) : slice_from (- 0) l = l.
Proof.
  unfold slice_from, bound. change (- 0 <? 0) with false.
  replace (Z.to_nat _) with 0%nat by lia. reflexivity.
Qed.

(** With [n_top_peaks = 0] every column is retained. *)
Lemma retained_columns_zero (argsort : list Q -> list nat)
    (adata : AnnData) :
  retained_columns argsort adata 0 = argsort (peak_frequency adata).
Proof. unfold retained_columns. apply slice_from_zero. Qed.

Lemma length_peak_frequency (adata : AnnData) :
  length (peak_frequency adata) = n_vars adata.
Proof.
  unfold peak_frequency, peak_occurrences.
  rewrite !length_map, length_seq. reflexivity.
Qed.

(** The one order the sort can return on the example. *)
Lemma argsort_example (order : list nat) :
  is_argsort (peak_frequency peaks_example) order = true ->
  order = [0; 2; 3; 1]%nat.
Proof.
  intros H. pose proof (is_argsort_inv _ _ H) as (Hlen & _).
  destruct order as [| a [| b [| c [| d [| e order]]]]];
    try discriminate Hlen.
  destruct a as [| [| [| [| a]]]], b as [| [| [| [| b]]]],
           c as [| [| [| [| c]]]], d as [| [| [| [| d]]]];
    first [ reflexivity | vm_compute in H; discriminate H ].
Qed.

(** C9 at n_top_peaks = 0 on the 5x4 matrix with column frequencies
    0.2, 0.8, 0.4, 0.6: the slice [-0:] of line 130 is the whole array,
    so whatever ascending order [np.argsort] returns, [filter_peaks]
    retains all four columns, where the claim, like the docstring (the
    top N most frequent peaks are retained), has it retain none. *)
Theorem filter_peaks_zero_keeps_all (argsort : list Q -> list nat) :
  is_argsort (peak_frequency peaks_example)
             (argsort (peak_frequency peaks_example)) = true ->
  retained_columns argsort peaks_example 0 = [0; 2; 3; 1]%nat /\
  var_names (filter_peaks argsort peaks_example 0)
  = ["p0"; "p2"; "p3"; "p1"] /\
  length (var_names (filter_peaks argsort peaks_example 0)) <> 0%nat.
Proof.
  intros Hex. unfold filter_peaks.
  rewrite retained_columns_zero, (argsort_example _ Hex).
  repeat split. discriminate.
Qed.

(** A stable sort is one such order. *)
Lemma filter_peaks_zero_keeps_all_witness :
  retained_columns argsort_stable peaks_example 0 = [0; 2; 3; 1]%nat /\
  var_names (filter_peaks argsort_stable peaks_example 0)
  = ["p0"; "p2"; "p3"; "p1"] /\
  length (var_names (filter_peaks argsort_stable peaks_example 0)) <> 0%nat.
Proof.
  apply (filter_peaks_zero_keeps_all argsort_stable). reflexivity.
Defined.

End PeaksFacts.

(** ** TF-IDF normalisers *)

Module TfidfFacts.
Import Py PyFacts Csr CsrFacts Tfidf.

(** *** Facts that hold in any arithmetic *)

Section AnyArith.

Context {F : Type} `{Arith F}.

Lemma nth_map_seq {A : Type} (g : nat -> A) (n j : nat) (d : A) :
  (j < n)%nat -> nth j (map g (seq 0 n)) d = g j.
Proof.
  intros Hj. rewrite (nth_indep _ d (g 0%nat))
    by (rewrite length_map, length_seq; exact Hj).
  rewrite map_nth, seq_nth by exact Hj. reflexivity.
Qed.


Lemma length_rows_tf_idf (m : csr_matrix F) :
  length (rows (tf_idf m)) = length (rows m).
Proof.
  unfold tf_idf. rewrite rows_of_rows. unfold multiply_cols, multiply_rows.
  unfold sums_axis1.
  rewrite !length_map, length_zip_with, !length_map. apply Nat.min_id.
Qed.

Lemma length_rows_logtf_idf (m : csr_matrix F) (pseudocount : F) :
  length (rows (logtf_idf m pseudocount)) = length (rows m).
Proof.
  unfold logtf_idf. rewrite rows_of_rows. unfold multiply_cols, multiply_rows.
  unfold sums_axis1.
  rewrite !length_map, length_zip_with, !length_map. apply Nat.min_id.
Qed.

Lemma shape_tf_idf (m : csr_matrix F) :
  length (rows m) = fst (shape m) -> shape (tf_idf m) = shape m.
Proof.
  intros Hlen. pose proof (length_rows_tf_idf m) as Hrows.
  unfold tf_idf in *. rewrite rows_of_rows in Hrows.
  cbn [shape of_rows]. rewrite Hrows, Hlen.
  destruct (shape m); reflexivity.
Qed.

Lemma shape_logtf_idf (m : csr_matrix F) (pseudocount : F) :
  length (rows m) = fst (shape m) ->
  shape (logtf_idf m pseudocount) = shape m.
Proof.
  intros Hlen. pose proof (length_rows_logtf_idf m pseudocount) as Hrows.
  unfold logtf_idf in *. rewrite rows_of_rows in Hrows.
  cbn [shape of_rows]. rewrite Hrows, Hlen.
  destruct (shape m); reflexivity.
Qed.

(** Whether a row is in canonical format depends on its column indices
    only. *)
Lemma has_canonical_format_indices (r r' : list (Z * F)) :
  map fst r = map fst r' ->
  has_canonical_format r = has_canonical_format r'.
Proof.
  revert r'. induction r as [| e r IH]; intros [| e' r'] Hr;
    try discriminate; [reflexivity |].
  injection Hr as He Hr. cbn [has_canonical_format].
  rewrite (IH r' Hr). destruct r as [| a r], r' as [| a' r'];
    try discriminate; [reflexivity |].
  injection Hr as Ha _. rewrite He, Ha. reflexivity.
Qed.

(** In a canonical row every entry before another has a smaller column
    index. *)
Lemma canonical_before (acc r : list (Z * F)) (e : Z * F) :
  has_canonical_format (acc ++ e :: r) = true ->
  Forall (fun e' => fst e' < fst e) acc.
Proof.
  induction acc as [| a acc IH]; intros Hc; [constructor |].
  change ((a :: acc) ++ e :: r) with (a :: (acc ++ e :: r)) in Hc.
  cbn [has_canonical_format] in Hc.
  destruct (acc ++ e :: r) as [| h t] eqn:Ht;
    [destruct acc; discriminate |].
  apply andb_true_iff in Hc as [Hlt Hc]. apply Z.ltb_lt in Hlt.
  specialize (IH Hc). constructor; [| exact IH].
  destruct acc as [| b acc].
  - injection Ht as <- _. exact Hlt.
  - injection Ht as <- _. inversion IH; subst. lia.
Qed.

(** An entry beyond the last column index of a row goes to its end. *)
Lemma add_entry_last (acc : list (Z * F)) (e : Z * F) :
  Forall (fun e' => fst e' < fst e) acc -> add_entry e acc = acc ++ [e].
Proof.
  induction 1 as [| a acc Ha _ IH]; [reflexivity |].
  cbn [add_entry app].
  destruct (Z.ltb_spec (fst e) (fst a)); [lia |].
  destruct (Z.eqb_spec (fst e) (fst a)); [lia |].
  rewrite IH. reflexivity.
Qed.

Lemma sum_duplicates_from (acc r : list (Z * F)) :
  has_canonical_format (acc ++ r) = true ->
  foldl (fun acc e => add_entry e acc) acc r = acc ++ r.
Proof.
  revert acc. induction r as [| e r IH]; intros acc Hc.
  - rewrite app_nil_r. reflexivity.
  - cbn [foldl]. rewrite (add_entry_last acc e (canonical_before _ _ _ Hc)).
    rewrite IH; rewrite <- app_assoc; [reflexivity | exact Hc].
Qed.

(** A row in canonical format is left as it is. *)
Lemma sum_duplicates_canonical (r : list (Z * F)) :
  has_canonical_format r = true -> sum_duplicates r = r.
Proof. intros Hc. apply (sum_duplicates_from [] r Hc). Qed.

Lemma sum_duplicates_rows (rs : list (list (Z * F))) :
  Forall (fun r => has_canonical_format r = true) rs ->
  map sum_duplicates rs = rs.
Proof.
  induction 1 as [| r rs Hr _ IH]; [reflexivity |].
  simpl. rewrite (sum_duplicates_canonical r Hr), IH. reflexivity.
Qed.

End AnyArith.

(** *** Binary64: a column without a positive entry *)



Section Binary64.

Variable log1p : float -> float.

#[local] Existing Instance float_arith.
Local Abbreviation FA := (float_arith log1p).


End Binary64.


End TfidfFacts.

(** ** The ingestion pipeline *)

Module IngestFacts.
Import Py Csr Reducer Ingest.

Local Open Scope nat_scope.

(** The ranges the loop of lines 219-229 reads are consecutive: each
    batch ends where the next one starts, and the last ends at
    [max_cells]. *)
Lemma batch_ranges_from (max_cells batch_size first count : nat) :
  (first + count) * batch_size < max_cells ->
  max_cells <= (first + S count) * batch_size ->
  map (fun batch_start =>
         (batch_start,
          batch_start + Nat.min batch_size (max_cells - batch_start)))
      (map (fun k => k * batch_size) (seq first (S count)))
  = partitions (map (fun k => k * batch_size) (seq first (S count))
                ++ [max_cells]).
Proof.
  revert first. induction count as [| count IH]; intros first Hlo Hhi.
  - simpl. unfold partitions, adjacent. simpl.
    rewrite Nat.min_r by nia. do 2 f_equal. nia.
  - change (seq first (S (S count)))
      with (first :: seq (S first) (S count)).
    rewrite !map_cons. rewrite (IH (S first)) by nia.
    unfold partitions. cbn [seq map app].
    rewrite CsrFacts.adjacent_cons2.
    rewrite Nat.min_l by nia. do 2 f_equal. nia.
Qed.

Lemma forallb_batch_ranges (max_cells batch_size : nat) (starts : list nat) :
  forallb (fun p => fst p <=? snd p)
    (map (fun batch_start =>
            (batch_start,
             batch_start + Nat.min batch_size (max_cells - batch_start)))
         starts) = true.
Proof.
  induction starts as [| s starts IH]; [reflexivity |].
  simpl. rewrite IH, andb_true_r. apply Nat.leb_le. lia.
Qed.

(** The batches of [read_with_filter] split the rows [0, max_cells). *)
Lemma batches_split (max_cells batch_size : nat) :
  batch_size <> 0 -> 0 < max_cells ->
  exists starts,
    range_step max_cells batch_size = Some starts /\
    starts <> [] /\
    map (fun batch_start =>
           (batch_start,
            batch_start + Nat.min batch_size (max_cells - batch_start)))
        starts
    = partitions (starts ++ [max_cells]) /\
    splits max_cells (starts ++ [max_cells]) = true.
Proof.
  intros Hb Hm. unfold range_step.
  destruct (Nat.eqb_spec batch_size 0) as [? | _]; [contradiction |].
  eexists. split; [reflexivity |].
  pose proof (Nat.div_mod_eq (max_cells + batch_size - 1) batch_size) as Hd.
  pose proof (Nat.mod_upper_bound (max_cells + batch_size - 1) batch_size Hb)
    as Hr.
  set (K := (max_cells + batch_size - 1) / batch_size) in *.
  assert (HK : K <> 0) by (intros HK; rewrite HK in Hd; nia).
  destruct K as [| count]; [contradiction |].
  assert (Hranges := batch_ranges_from max_cells batch_size 0 count
                       ltac:(nia) ltac:(nia)).
  split; [discriminate |].
  split; [exact Hranges |].
  unfold splits. rewrite last_snoc.
  rewrite bool_decide_eq_true_2 by reflexivity.
  unfold partitions in Hranges. rewrite <- Hranges.
  rewrite forallb_batch_ranges. reflexivity.
Qed.

Lemma mapM_map {A B C : Type} (g : A -> B) (h : B -> option C)
    (l : list A) :
  mapM h (map g l) = mapM (fun x => h (g x)) l.
Proof.
  induction l as [| x l IH]; [reflexivity |].
  simpl. rewrite IH. reflexivity.
Qed.

Local Close Scope nat_scope.

(** Every partition of a split read and filtered: the matrices of the
    filtered row ranges, which together hold the filtered rows of the
    whole matrix. *)
Lemma read_split {V : Type} (f : h5file V) (total_cols : nat)
    (bs : list nat) (min_g max_g : Z) :
  pointers_ok f = true ->
  splits (length (X_indptr f) - 1) bs = true ->
  let rs := rows (whole_matrix f total_cols) in
  let rss := map (fun p => List.filter (degree_ok min_g max_g)
                             (Py.slice (fst p) (snd p) rs))
                 (partitions bs) in
  read_partitions f total_cols bs min_g max_g
  = Some (map (of_rows total_cols) rss) /\
  concat rss = List.filter (degree_ok min_g max_g) rs.
Proof.
  intros Hok Hsplit rs rss.
  destruct (CsrFacts.splits_inv _ _ Hsplit) as (rest & -> & Hmono & Hlast).
  destruct (CsrFacts.whole_matrix_decode f total_cols Hok)
    as (Hptr & Hlen & _).
  fold rs in Hptr, Hlen.
  destruct (CsrFacts.partitions_cover rs 0 _ rest Hmono Hlast)
    as (_ & Hall & Hcat).
  assert (Hpos : (0 < length (X_indptr f))%nat).
  { rewrite Hptr, CsrFacts.length_pointers_from. lia. }
  split.
  - unfold read_partitions, rss. rewrite map_map.
    apply CsrFacts.read_ranges; [exact Hok |].
    eapply Forall_impl; [exact Hall |]. simpl. intros p Hp. lia.
  - unfold rss.
    rewrite <- (map_map (fun p => Py.slice (fst p) (snd p) rs)
                        (List.filter _)).
    rewrite <- CsrFacts.filter_concat, Hcat, <- Hlen.
    rewrite PyFacts.slice_full. reflexivity.
Qed.

Section Pipeline.

Context {V : Type} `{Dtype V}.

Lemma concatenate_rows (total_cols : nat) (vs : list (list V)) :
  vs <> [] ->
  Forall (fun v => length v = total_cols) vs ->
  concatenate Axis0 (map (fun v => [v]) vs) = Some vs.
Proof.
  intros Hne Hall. destruct vs as [| v vs]; [contradiction |].
  unfold concatenate. cbn [map].
  assert (Hcols : forallb (fun b => (ncols b =? ncols [v])%nat)
                          (map (fun v => [v]) (v :: vs)) = true).
  { apply forallb_forall. intros b Hb.
    apply in_map_iff in Hb as (v' & <- & Hv').
    rewrite List.Forall_forall in Hall. simpl.
    rewrite (Hall v' Hv'), (Hall v (or_introl eq_refl)).
    apply Nat.eqb_refl. }
  cbn [map] in Hcols. rewrite Hcols. f_equal.
  change ([v] :: map (fun v => [v]) vs) with (map (fun v => [v]) (v :: vs)).
  generalize (v :: vs). intros l.
  induction l as [| x l IH]; [reflexivity |]. simpl. rewrite IH. reflexivity.
Qed.

(** The value [sum_csr_matrix] computes along axis 0: one row of column
    sums for every partition. *)
Lemma sum_csr_matrix_axis0 (rt : runtime) (client d : Client)
    (total_cols : nat) (rss : list (list (list (Z * V)))) :
  default_client rt = Some d -> rss <> [] ->
  exists r,
    sum_csr_matrix rt (map (of_rows total_cols) rss) client Axis0 = Some r /\
    value r = map (fun rs => map (column_sum rs) (seq 0 total_cols)) rss.
Proof.
  intros Hd Hne. unfold sum_csr_matrix. rewrite Hd. cbn [mbind option_bind].
  rewrite ReducerFacts.sum_csr_matrix_objs.
  assert (Hobjs :
    map (csr_sum Axis0) (map (of_rows total_cols) rss)
    = map (fun v => [v])
          (map (fun rs => map (column_sum rs) (seq 0 total_cols)) rss)).
  { rewrite !map_map. apply map_ext. intros rs.
    cbn [csr_sum shape of_rows snd].
    rewrite CsrFacts.rows_of_rows. reflexivity. }
  rewrite Hobjs.
  rewrite (concatenate_rows total_cols).
  - cbn [mbind option_bind]. eexists. split; reflexivity.
  - destruct rss; [contradiction | discriminate].
  - apply List.Forall_forall. intros v Hv.
    apply in_map_iff in Hv as (rs & <- & _).
    rewrite length_map, length_seq. reflexivity.
Qed.

(** Summed over the partitions, those rows give for every column the
    sums of the partitions added up. *)
Lemma dense_sum_axis0_batches (total_cols : nat)
    (rss : list (list (list (Z * V)))) :
  rss <> [] ->
  dense_sum_axis0
    (map (fun rs => map (column_sum rs) (seq 0 total_cols)) rss)
  = map (fun j => sum_values (map (fun rs => column_sum rs j) rss))
        (seq 0 total_cols).
Proof.
  intros Hne. unfold dense_sum_axis0.
  assert (Hcols : ncols (map (fun rs => map (column_sum rs)
                                            (seq 0 total_cols)) rss)
                  = total_cols).
  { destruct rss; [contradiction |]. simpl.
    rewrite length_map, length_seq. reflexivity. }
  rewrite Hcols. apply map_ext_in. intros j Hj.
  apply in_seq in Hj. rewrite map_map. f_equal.
  apply map_ext. intros rs.
  apply TfidfFacts.nth_map_seq. lia.
Qed.

(** Two or more batches are read when the batch size is smaller than the
    number of cells. *)
Lemma several_batches (max_cells batch_size : nat) :
  batch_size <> 0%nat -> (batch_size < max_cells)%nat ->
  (2 <= (max_cells + batch_size - 1) / batch_size)%nat.
Proof.
  intros Hb Hlt. apply Nat.div_le_lower_bound; [exact Hb | lia].
Qed.


(** What [read_with_filter] returns on a well-formed file read whole in
    two or more batches: the degree-filtered matrix, its columns and the
    gene labels both cut by the one mask that compares, per column, the
    sum of the values of the surviving rows, added up batch by batch,
    with [min_cells]. *)
Lemma read_with_filter_batches (rt : runtime) (client d : Client)
    (f : h5file V) (min_g max_g min_cells : Z) (batch_size : nat) :
  pointers_ok f = true ->
  batch_size <> 0%nat ->
  (batch_size < length (X_indptr f) - 1)%nat ->
  default_client rt = Some d ->
  let total_cols := length (var_index f) in
  let filtered := degree_filter min_g max_g (whole_matrix f total_cols) in
  let rss := surviving_by_batch f min_g max_g batch_size in
  let query := value_sum_mask min_cells total_cols rss in
  read_with_filter rt client f min_g max_g min_cells None batch_size
  = Some (select_columns query filtered, Py.select query (var_index f)) /\
  concat rss = rows filtered.
Proof.
  intros Hok Hb Hrows Hd total_cols filtered rss query.
  destruct (batches_split (length (X_indptr f) - 1) batch_size Hb
              ltac:(lia)) as (starts & Hrange & Hstarts & Hranges & Hsplit).
  destruct (read_split f total_cols _ min_g max_g Hok Hsplit)
    as [Hread Hcat].
  assert (Hstarts_eq : starts
            = map (fun k => (k * batch_size)%nat)
                  (seq 0 ((length (X_indptr f) - 1 + batch_size - 1)
                          / batch_size))).
  { unfold range_step in Hrange.
    destruct (Nat.eqb_spec batch_size 0) as [? | _]; [contradiction |].
    injection Hrange as <-. reflexivity. }
  assert (Hrss : map (fun p => List.filter (degree_ok min_g max_g)
                        (Py.slice (fst p) (snd p)
                           (rows (whole_matrix f total_cols))))
                     (partitions (starts ++ [(length (X_indptr f) - 1)%nat]))
                 = rss).
  { rewrite <- Hranges, map_map. cbn [fst snd].
    unfold rss, surviving_by_batch. fold total_cols.
    rewrite Hstarts_eq, map_map. reflexivity. }
  rewrite Hrss in Hread, Hcat.
  assert (Hlen : length rss
                 = ((length (X_indptr f) - 1 + batch_size - 1)
                    / batch_size)%nat).
  { unfold rss, surviving_by_batch. rewrite length_map, length_seq.
    reflexivity. }
  pose proof (several_batches _ _ Hb Hrows) as Hseveral.
  assert (Hne : rss <> []).
  { intros Hnil. rewrite Hnil in Hlen. simpl in Hlen. lia. }
  assert (Hfiltered : filtered
            = of_rows total_cols
                (List.filter (degree_ok min_g max_g)
                   (rows (whole_matrix f total_cols))))
    by (apply CsrFacts.degree_filter_whole; exact Hok).
  destruct (sum_csr_matrix_axis0 rt client d total_cols rss Hd Hne)
    as (r & Hsum & Hval).
  split.
  - unfold read_with_filter. fold total_cols. rewrite Hrange.
    cbn [mbind option_bind].
    unfold read_partitions in Hread. rewrite <- Hranges, mapM_map in Hread.
    cbn [fst snd] in Hread. rewrite Hread. cbn [mbind option_bind].
    rewrite (CsrFacts.vstack_of_rows total_cols rss Hne).
    cbn [mbind option_bind]. rewrite Hsum. cbn [mbind option_bind].
    rewrite length_map, Hlen.
    destruct (Nat.eqb_spec ((length (X_indptr f) - 1 + batch_size - 1)
                            / batch_size) 1) as [H1 | _]; [lia |].
    rewrite Hval, (dense_sum_axis0_batches total_cols rss Hne), Hcat.
    rewrite map_map.
    unfold query, value_sum_mask. rewrite Hfiltered. reflexivity.
  - rewrite Hcat, Hfiltered, CsrFacts.rows_of_rows. reflexivity.
Qed.

End Pipeline.

Lemma length_select {A : Type} (mask : list bool) (l : list A) :
  length mask = length l ->
  length (Py.select mask l) = length (List.filter (fun b : bool => b) mask).
Proof.
  revert l. induction mask as [| b mask IH]; intros l Hlen; [reflexivity |].
  destruct l as [| x l]; [discriminate |].
  simpl in *. destruct b; simpl; rewrite (IH l) by lia; reflexivity.
Qed.

(** C3 at a float32 file of two cells, the first with 5 reads of gene g0
    and the second with 1 read of gene g1, read in two batches of one
    cell with min_genes_per_cell = max_genes_per_cell = 1 and
    min_cells = 2: both cells survive the degree filter and each gene has
    a nonzero entry in one cell only, so the count of the specification
    is 1 for both genes and its mask drops both; the code compares the
    sums of the values, 5 and 1, with min_cells and returns gene g0 and
    its column. *)
Theorem read_with_filter_sums_values (client : Client) :
  let rt := Runtime (Some client_a) in
  let surviving := rows (degree_filter 1 1 (whole_matrix two_cell_file 2)) in
  read_with_filter rt client two_cell_file 1 1 2 None 1
  = Some (CsrMatrix [f32_of_Z 5] [0] [0; 1; 1] (2%nat, 1%nat), ["g0"]) /\
  surviving = [[(0, f32_of_Z 5)]; [(1, f32_of_Z 1)]] /\
  map (nonzero_rows_in_column f32_nonzero surviving) (seq 0 2) = [1; 1] /\
  cell_count_mask f32_nonzero 2 2 surviving = [false; false] /\
  value_sum_mask 2 2 (surviving_by_batch two_cell_file 1 1 1)
  = [true; false] /\
  Py.select (cell_count_mask f32_nonzero 2 2 surviving)
            (var_index two_cell_file) = [].
Proof. repeat split; vm_compute; reflexivity. Qed.

End IngestFacts.

(* ================================================================== *)
(** * Further properties *)
(* ================================================================== *)

(** ** Interval overlap *)

Module OverlapLaws.
Import Overlap OverlapFacts.

(** The three tests together are the test that two intervals meet. *)
Lemma overlap_same_chrom (g : gene) (f : fragment) (up down : Z) :
  g_chrom g = f_chrom f ->
  f_start f <= f_end f ->
  padded_lo g up down <= padded_hi g up down ->
  overlap g f up down =
  if (f_start f <=? padded_hi g up down)
     && (padded_lo g up down <=? f_end f)
  then Some true else None.
Proof.
  intros Hc Hf Hg. rewrite overlap_unfold.
  apply String.eqb_eq in Hc. rewrite Hc. cbn [negb].
  destruct (Z.leb_spec (f_start f) (padded_hi g up down));
    destruct (Z.leb_spec (padded_lo g up down) (f_end f));
    destruct (Z.leb_spec (padded_lo g up down) (f_start f));
    destruct (Z.leb_spec (padded_hi g up down) (f_end f));
    destruct (Z.geb_spec (padded_hi g up down) (f_start f));
    destruct (Z.geb_spec (padded_hi g up down) (f_end f));
    destruct (Z.geb_spec (padded_lo g up down) (f_start f));
    cbn [andb]; try reflexivity; exfalso; lia.
Qed.

(** The padded span of a gene with non-negative paddings. *)
Lemma padded_span_bounds (g : gene) (up down : Z) :
  0 <= up -> 0 <= down ->
  padded_lo g up down <= g_start g /\ g_end g <= padded_hi g up down.
Proof.
  intros Hu Hd. unfold padded_lo, padded_hi, swap_padding.
  destruct (g_strand g =? "rev")%string; cbn [fst snd]; lia.
Qed.

Lemma padded_span_monotone (g : gene) (up down up' down' : Z) :
  up <= up' -> down <= down' ->
  padded_lo g up' down' <= padded_lo g up down /\
  padded_hi g up down <= padded_hi g up' down'.
Proof.
  intros Hu Hd. unfold padded_lo, padded_hi, swap_padding.
  destruct (g_strand g =? "rev")%string; cbn [fst snd]; lia.
Qed.

(** X1: for a gene and a fragment on the same chromosome, the fragment
    given start before end and the padded gene span not empty,
    [overlap] returns [True] exactly when the two closed intervals
    intersect, and [None] when they do not. *)
Theorem overlap_iff_intersect (g : gene) (f : fragment) (up down : Z) :
  g_chrom g = f_chrom f ->
  f_start f <= f_end f ->
  padded_lo g up down <= padded_hi g up down ->
  overlap g f up down =
  if (f_start f <=? padded_hi g up down)
     && (padded_lo g up down <=? f_end f)
  then Some true else None.
Proof. exact (overlap_same_chrom g f up down). Qed.

(** A fragment that reaches into the padded span of the forward gene. *)
Lemma overlap_iff_intersect_witness :
  overlap gene_fwd (Fragment "chr1" 50 95) 10 0 =
  if (50 <=? padded_hi gene_fwd 10 0) && (padded_lo gene_fwd 10 0 <=? 95)
  then Some true else None.
Proof.
  apply (overlap_iff_intersect gene_fwd (Fragment "chr1" 50 95) 10 0).
  - reflexivity.
  - simpl. lia.
  - vm_compute. discriminate.
Defined.

(** X2: on one chromosome, with the fragment given start before end and
    a gene given start before end, widening either padding by a
    non-negative amount never turns a match into a miss. *)
Theorem overlap_padding_monotone (g : gene) (f : fragment)
    (up down up' down' : Z) :
  g_start g <= g_end g ->
  f_start f <= f_end f ->
  0 <= up <= up' ->
  0 <= down <= down' ->
  overlap g f up down = Some true ->
  overlap g f up' down' = Some true.
Proof.
  intros Hg Hf Hup Hdown Hov.
  destruct (String.eqb_spec (g_chrom g) (f_chrom f)) as [Hc | Hc].
  - pose proof (padded_span_bounds g up down ltac:(lia) ltac:(lia)).
    pose proof (padded_span_bounds g up' down' ltac:(lia) ltac:(lia)).
    pose proof (padded_span_monotone g up down up' down'
                  ltac:(lia) ltac:(lia)).
    rewrite overlap_same_chrom in Hov by (assumption || lia).
    rewrite overlap_same_chrom by (assumption || lia).
    destruct (Z.leb_spec (f_start f) (padded_hi g up down));
      destruct (Z.leb_spec (padded_lo g up down) (f_end f));
      try discriminate Hov.
    rewrite (proj2 (Z.leb_le _ _)), (proj2 (Z.leb_le _ _)) by lia.
    reflexivity.
  - rewrite overlap_unfold in Hov.
    apply String.eqb_neq in Hc. rewrite Hc in Hov. discriminate Hov.
Qed.

(** Padding 10 widened to 40 on the forward gene. *)
Lemma overlap_padding_monotone_witness :
  overlap gene_fwd (Fragment "chr1" 50 95) 40 5 = Some true.
Proof.
  apply (overlap_padding_monotone gene_fwd (Fragment "chr1" 50 95)
                                  10 0 40 5).
  - simpl. lia.
  - simpl. lia.
  - lia.
  - lia.
  - reflexivity.
Defined.

End OverlapLaws.

(** ** Batched PCA *)

Module PcaLaws.
Import Py Pca PcaFacts.

Local Open Scope nat_scope.

Section Laws.

Context {Row Emb : Type}.
Variable zero : Emb.
Variable transform : Row -> Emb.

(** X3: for a fitted model and 1 <= n_batches <= rows, the loop of lines
    50-59 leaves an embeddings matrix with one row per input row: its
    first [covered rows n_batches] rows are the transforms of the input
    rows, and every later row is the zero row it was allocated with. *)
Theorem pca_loop_result (X : list Row) (n_batches : nat) :
  1 <= n_batches <= length X ->
  let k := covered (length X) n_batches in
  let embeddings := transform_in_batches zero transform X n_batches in
  length embeddings = length X /\
  k <= length X /\
  take k embeddings = map transform (take k X) /\
  drop k embeddings = replicate (length X - k) zero.
Proof.
  intros [Hn Hle] k embeddings.
  assert (Hn0 : n_batches <> 0) by lia.
  pose proof (covered_le (length X) n_batches Hn0) as Hk. fold k in Hk.
  unfold embeddings. rewrite transform_in_batches_written by exact Hn0.
  fold k.
  split; [apply length_written, Hk |].
  split; [exact Hk |].
  assert (Hlen : length (map transform (take k X)) = k)
    by (rewrite length_map, length_take; lia).
  unfold written_prefix. split.
  - apply take_app_length'. symmetry. exact Hlen.
  - apply drop_app_length'. symmetry. exact Hlen.
Qed.

(** X4: for 1 <= n_batches <= rows, when the remainder of the row count
    by the number of batches is zero or smaller than the batch size, the
    loop transforms every row. *)
Theorem pca_loop_transforms_all (X : list Row) (n_batches : nat) :
  1 <= n_batches <= length X ->
  length X mod n_batches < length X / n_batches
  \/ length X mod n_batches = 0 ->
  transform_in_batches zero transform X n_batches = map transform X.
Proof.
  intros [Hn Hle] Hr.
  rewrite transform_in_batches_written by lia.
  apply covered_all_iff in Hr; [| lia]. rewrite Hr.
  unfold written_prefix.
  rewrite take_ge, Nat.sub_diag, app_nil_r by lia. reflexivity.
Qed.

(** X5: a row count of at least the square of the number of batches
    (n_batches >= 1) is enough for the loop to transform every row. *)
Theorem pca_loop_transforms_all_square (X : list Row) (n_batches : nat) :
  1 <= n_batches ->
  n_batches * n_batches <= length X ->
  transform_in_batches zero transform X n_batches = map transform X.
Proof.
  intros Hn Hsq.
  assert (Hn0 : n_batches <> 0) by lia.
  pose proof (Nat.mod_upper_bound (length X) n_batches Hn0).
  pose proof (Nat.div_le_lower_bound (length X) n_batches n_batches Hn0 Hsq).
  rewrite transform_in_batches_written by exact Hn0.
  assert (Hr : covered (length X) n_batches = length X)
    by (apply covered_all_iff; [exact Hn0 | left; lia]).
  rewrite Hr. unfold written_prefix.
  rewrite take_ge, Nat.sub_diag, app_nil_r by lia. reflexivity.
Qed.

End Laws.

(** X6: for 1 <= n_batches <= rows the widths of the batches the loop
    transforms add up to the row count if and only if the remainder of
    the row count by the number of batches is smaller than the batch
    size. *)
Theorem batch_widths_cover_iff (rows n_batches : nat) :
  1 <= n_batches <= rows ->
  sum_list (batch_widths rows n_batches) = rows <->
  rows mod n_batches < rows / n_batches.
Proof. exact (sum_batch_widths_all_iff rows n_batches). Qed.

(** Seven rows in three batches. *)
Lemma pca_loop_result_witness :
  let X := [1; 2; 3; 4; 5; 6; 7] in
  let transform := fun x : nat => x + 10 in
  let k := covered (length X) 3 in
  let embeddings := transform_in_batches 0 transform X 3 in
  length embeddings = length X /\
  k <= length X /\
  take k embeddings = map transform (take k X) /\
  drop k embeddings = replicate (length X - k) 0.
Proof.
  apply (pca_loop_result 0 (fun x : nat => x + 10) [1; 2; 3; 4; 5; 6; 7] 3).
  simpl. lia.
Defined.

(** Six rows in three batches: the remainder is zero. *)
Lemma pca_loop_transforms_all_witness :
  let X := [1; 2; 3; 4; 5; 6] in
  let transform := fun x : nat => x + 10 in
  transform_in_batches 0 transform X 3 = map transform X.
Proof.
  apply (pca_loop_transforms_all 0 (fun x : nat => x + 10)
           [1; 2; 3; 4; 5; 6] 3).
  - simpl. lia.
  - right. reflexivity.
Defined.

(** Five rows in two batches: 2 * 2 <= 5. *)
Lemma pca_loop_transforms_all_square_witness :
  let X := [1; 2; 3; 4; 5] in
  let transform := fun x : nat => x + 10 in
  transform_in_batches 0 transform X 2 = map transform X.
Proof.
  apply (pca_loop_transforms_all_square 0 (fun x : nat => x + 10)
           [1; 2; 3; 4; 5] 2).
  - lia.
  - simpl. lia.
Defined.

(** Seven rows in three batches: batch size 2, remainder 1. *)
Lemma batch_widths_cover_iff_witness :
  sum_list (batch_widths 7 3) = 7 <-> 7 mod 3 < 7 / 3.
Proof. apply (batch_widths_cover_iff 7 3). lia. Defined.

End PcaLaws.

(** ** The partition reader *)

Module ReaderLaws.
Import Py PyFacts Csr CsrFacts.

Section Laws.

Context {V : Type}.
Implicit Types (f : h5file V) (m : csr_matrix V).

(** X7: on a well-formed file, the matrix the reader rebuilds for the
    range [batch_start, batch_end) denotes exactly the rows of the
    file's matrix with these numbers, in order. *)
Theorem partition_holds_file_rows f
    (total_cols batch_start batch_end : nat) :
  pointers_ok f = true ->
  (batch_start <= batch_end < length (X_indptr f))%nat ->
  exists m,
    partial_sparse_array f total_cols batch_start batch_end = Some m /\
    rows m = slice batch_start batch_end (rows (whole_matrix f total_cols)).
Proof.
  intros Hok Hr. eexists. split.
  - apply partial_sparse_array_rows; assumption.
  - apply rows_of_rows.
Qed.

(** Indexing the pointers past their end, and the first element of an
    empty slice, make the reader raise. *)
Lemma reader_raises f
    (total_cols batch_start batch_end : nat) (min_g max_g : Z) :
  (length (X_indptr f) <= batch_end \/ batch_end < batch_start)%nat ->
  _read_partition_to_sparse_matrix f total_cols batch_start batch_end
                                   min_g max_g = None.
Proof.
  intros Hr.
  unfold _read_partition_to_sparse_matrix, partial_sparse_array.
  destruct (X_indptr f !! batch_start) as [start_ptr |] eqn:Hs;
    [| reflexivity].
  destruct (X_indptr f !! batch_end) as [end_ptr |] eqn:He;
    [| reflexivity].
  cbn [mbind option_bind].
  destruct Hr as [Hr | Hr].
  - apply lookup_lt_Some in He. lia.
  - unfold slice.
    replace (batch_end + 1 - batch_start)%nat with 0%nat by lia.
    reflexivity.
Qed.

(** X8: the reader raises when the end of the range is not an index of
    the pointer dataset, and when the range ends before it starts. *)
Theorem read_partition_out_of_range f
    (total_cols batch_start batch_end : nat) (min_g max_g : Z) :
  (length (X_indptr f) <= batch_end \/ batch_end < batch_start)%nat ->
  _read_partition_to_sparse_matrix f total_cols batch_start batch_end
                                   min_g max_g = None.
Proof.
  exact (reader_raises f total_cols batch_start batch_end min_g max_g).
Qed.

(** X9: on a well-formed file and a range within it, the reader returns
    a matrix whose rows all have a degree within the two bounds, at most
    as many rows as the range, the given column count, and again
    well-formed arrays: pointers that start at 0, one more pointer than
    rows, and as many values as indices. *)
Theorem read_partition_output f (total_cols batch_start batch_end : nat)
    (min_g max_g : Z) :
  pointers_ok f = true ->
  (batch_start <= batch_end < length (X_indptr f))%nat ->
  exists out,
    _read_partition_to_sparse_matrix f total_cols batch_start batch_end
                                     min_g max_g = Some out /\
    Forall (fun r => min_g <= degree r <= max_g) (rows out) /\
    shape out = (length (rows out), total_cols) /\
    (length (rows out) <= batch_end - batch_start)%nat /\
    indptr out !! 0%nat = Some 0 /\
    length (indptr out) = (length (rows out) + 1)%nat /\
    length (data out) = length (indices out).
Proof.
  intros Hok Hr. eexists. split.
  { apply read_partition_rows; assumption. }
  rewrite rows_of_rows.
  set (rs := slice batch_start batch_end (rows (whole_matrix f total_cols))).
  split; [| split; [| split; [| split; [| split]]]].
  - apply List.Forall_forall. intros r Hin.
    apply List.filter_In in Hin as [_ Hdeg].
    unfold degree_ok in Hdeg. apply andb_true_iff in Hdeg as [H1 H2].
    apply Z.leb_le in H1, H2. lia.
  - reflexivity.
  - etransitivity; [apply List.filter_length_le |].
    unfold rs, slice. rewrite length_take. lia.
  - simpl. destruct (List.filter _ rs); reflexivity.
  - simpl. rewrite length_pointers_from. lia.
  - simpl. rewrite !length_map. reflexivity.
Qed.

(** X10: filtering the reader's output once more with the same bounds
    changes nothing. *)
Theorem read_partition_filter_idempotent f
    (total_cols batch_start batch_end : nat) (min_g max_g : Z) out :
  pointers_ok f = true ->
  (batch_start <= batch_end < length (X_indptr f))%nat ->
  _read_partition_to_sparse_matrix f total_cols batch_start batch_end
                                   min_g max_g = Some out ->
  degree_filter min_g max_g out = out.
Proof.
  intros Hok Hr Hout.
  rewrite read_partition_rows in Hout by assumption.
  injection Hout as <-. rewrite degree_filter_of_rows. f_equal.
  set (rs := slice _ _ _). clearbody rs.
  induction rs as [| r rs IH]; [reflexivity |].
  simpl. destruct (degree_ok min_g max_g r) eqn:Hd; [| exact IH].
  simpl. rewrite Hd, IH. reflexivity.
Qed.

End Laws.

(** Rows 1 and 2 of [sample_file]. *)
Lemma partition_holds_file_rows_witness :
  exists m,
    partial_sparse_array sample_file 3 1 3 = Some m /\
    rows m = slice 1 3 (rows (whole_matrix sample_file 3)).
Proof.
  apply (partition_holds_file_rows sample_file 3 1 3).
  - reflexivity.
  - simpl. lia.
Defined.

(** [sample_file] has four rows: row 7 does not exist. *)
Lemma read_partition_out_of_range_witness :
  _read_partition_to_sparse_matrix sample_file 3 2 7 1 3 = None.
Proof.
  apply (read_partition_out_of_range sample_file 3 2 7 1 3).
  left. simpl. lia.
Defined.

Lemma read_partition_output_witness :
  exists out,
    _read_partition_to_sparse_matrix sample_file 3 0 4 1 2 = Some out /\
    Forall (fun r => 1 <= degree r <= 2) (rows out) /\
    shape out = (length (rows out), 3%nat) /\
    (length (rows out) <= 4 - 0)%nat /\
    indptr out !! 0%nat = Some 0 /\
    length (indptr out) = (length (rows out) + 1)%nat /\
    length (data out) = length (indices out).
Proof.
  apply (read_partition_output sample_file 3 0 4 1 2).
  - reflexivity.
  - simpl. lia.
Defined.

Lemma read_partition_filter_idempotent_witness :
  degree_filter 1 2 (of_rows 3 [[(0, 1); (1, 2)]; [(2, 6)]])
  = of_rows 3 [[(0, 1); (1, 2)]; [(2, 6)]].
Proof.
  apply (read_partition_filter_idempotent sample_file 3 0 4 1 2).
  - reflexivity.
  - simpl. lia.
  - reflexivity.
Defined.

End ReaderLaws.

(** ** The ingestion pipeline *)

Module IngestLaws.
Import Py PyFacts Csr CsrFacts Reducer Ingest IngestFacts.

Lemma mapM_None {A B : Type} (h : A -> option B) (l : list A) (x : A) :
  In x l -> h x = None -> mapM h l = None.
Proof.
  intros Hin Hx. induction l as [| y l IH]; [contradiction |].
  simpl. destruct Hin as [-> | Hin].
  - rewrite Hx. reflexivity.
  - destruct (h y); [| reflexivity]. simpl. rewrite (IH Hin). reflexivity.
Qed.

(** The last of the consecutive ranges ends at the last boundary. *)
Lemma last_partition (l : list nat) (n : nat) :
  l <> [] -> exists x, In (x, n) (partitions (l ++ [n])).
Proof.
  unfold partitions. induction l as [| a l IH]; [contradiction |].
  intros _. destruct l as [| b l].
  - exists a. left. reflexivity.
  - destruct (IH ltac:(discriminate)) as [x Hx].
    exists x. simpl app. rewrite adjacent_cons2. right. exact Hx.
Qed.

Section Laws.

Context {V : Type} `{Dtype V}.

(** X11: on a well-formed file of two or more genes with rows in
    canonical format, read whole in two or more batches (a positive
    batch size smaller than the number of cells) while a default client
    exists, [read_with_filter]
    returns the degree-filtered matrix and the gene labels, both cut by
    one mask: a column is kept when the sums of its values over the
    surviving rows of the batches, added up in the dtype of the matrix,
    compare [>=] to [min_cells].  The batches hold the surviving rows in
    order, and the result has one row per surviving cell and one column
    per returned label. *)
Theorem read_with_filter_result (rt : runtime) (client d : Client)
    (f : h5file V) (min_g max_g min_cells : Z) (batch_size : nat) :
  pointers_ok f = true ->
  canonical_rows (length (var_index f))
                 (rows (whole_matrix f (length (var_index f)))) = true ->
  (2 <= length (var_index f))%nat ->
  batch_size <> 0%nat ->
  (batch_size < length (X_indptr f) - 1)%nat ->
  default_client rt = Some d ->
  let total_cols := length (var_index f) in
  let filtered := degree_filter min_g max_g (whole_matrix f total_cols) in
  let batches := surviving_by_batch f min_g max_g batch_size in
  let query := value_sum_mask min_cells total_cols batches in
  exists m genes,
    read_with_filter rt client f min_g max_g min_cells None batch_size
    = Some (m, genes) /\
    m = select_columns query filtered /\
    genes = Py.select query (var_index f) /\
    concat batches = rows filtered /\
    shape m = (length (rows filtered), length genes).
Proof.
  intros Hok _ _ Hb Hrows Hd total_cols filtered batches query.
  destruct (read_with_filter_batches rt client d f min_g max_g min_cells
              batch_size Hok Hb Hrows Hd) as [Hres Hcat].
  eexists _, _.
  split; [exact Hres |].
  split; [reflexivity |]. split; [reflexivity |].
  split; [exact Hcat |].
  cbn [select_columns shape of_rows]. rewrite length_map. f_equal.
  symmetry. apply length_select.
  unfold value_sum_mask. rewrite length_map, length_seq.
  reflexivity.
Qed.

(** X13: without a default client [read_with_filter] raises on every
    input, whatever client it is passed. *)
Theorem read_with_filter_needs_default (rt : runtime) (client : Client)
    (f : h5file V) (min_g max_g min_cells : Z) (num_cells : option nat)
    (batch_size : nat) :
  default_client rt = None ->
  read_with_filter rt client f min_g max_g min_cells num_cells batch_size
  = None.
Proof.
  intros Hd. unfold read_with_filter.
  destruct (range_step _ _) as [starts |]; [| reflexivity].
  cbn [mbind option_bind].
  destruct (mapM _ starts) as [dls |]; [| reflexivity].
  cbn [mbind option_bind].
  destruct (vstack dls) as [arr |]; [| reflexivity].
  cbn [mbind option_bind].
  unfold sum_csr_matrix. rewrite Hd. reflexivity.
Qed.

(** X14: asking for more cells than the file holds makes
    [read_with_filter] raise: the last batch indexes the row pointers
    past their end. *)
Theorem read_with_filter_too_many_cells (rt : runtime) (client : Client)
    (f : h5file V) (min_g max_g min_cells : Z) (n batch_size : nat) :
  (length (X_indptr f) - 1 < n)%nat ->
  read_with_filter rt client f min_g max_g min_cells (Some n) batch_size
  = None.
Proof.
  intros Hn. unfold read_with_filter.
  destruct (Nat.eq_dec batch_size 0%nat) as [-> | Hb]; [reflexivity |].
  destruct (batches_split n batch_size Hb ltac:(lia))
    as (starts & Hrange & Hstarts & Hranges & _).
  rewrite Hrange. cbn [mbind option_bind].
  destruct (last_partition starts n Hstarts) as [x Hx].
  rewrite <- Hranges in Hx. apply in_map_iff in Hx as (s & Hs & Hin).
  injection Hs as _ Hend.
  rewrite (mapM_None _ starts s Hin); [reflexivity |].
  rewrite Hend. apply ReaderLaws.reader_raises. left. lia.
Qed.


(** X15: when the lower degree bound exceeds the upper one no cell
    survives.  On a well-formed file with rows in canonical format, read
    in two or more batches, in a dtype where zero plus zero is zero and
    zero does not reach [min_cells], the result is a matrix without rows
    and columns and an empty list of labels, not an error. *)
Theorem read_with_filter_inverted_bounds (rt : runtime) (client d : Client)
    (f : h5file V) (min_g max_g min_cells : Z) (batch_size : nat) :
  pointers_ok f = true ->
  canonical_rows (length (var_index f))
                 (rows (whole_matrix f (length (var_index f)))) = true ->
  batch_size <> 0%nat ->
  (batch_size < length (X_indptr f) - 1)%nat ->
  default_client rt = Some d ->
  max_g < min_g ->
  d_add d_zero d_zero = d_zero ->
  d_ge d_zero min_cells = false ->
  read_with_filter rt client f min_g max_g min_cells None batch_size
  = Some (of_rows 0 [], []).
Proof.
  intros Hok _ Hb Hrows Hd Hinv Hadd Hge.
  destruct (read_with_filter_batches rt client d f min_g max_g min_cells
              batch_size Hok Hb Hrows Hd) as [Hres _].
  rewrite Hres. clear Hres.
  rewrite degree_filter_whole by exact Hok.
  assert (Hnone : forall rs : list (list (Z * V)),
             List.filter (degree_ok min_g max_g) rs = []).
  { intros rs. induction rs as [| r rs IH]; [reflexivity |].
    simpl. unfold degree_ok at 1.
    destruct (Z.leb_spec min_g (degree r));
      destruct (Z.leb_spec (degree r) max_g); simpl; try exact IH.
    lia. }
  rewrite Hnone.
  assert (Hzeros : forall ks : list nat,
             sum_values (map (fun _ : nat => d_zero) ks) = d_zero).
  { intros ks. unfold sum_values.
    induction ks as [| k ks IH]; [reflexivity |].
    cbn [map foldl]. rewrite Hadd. exact IH. }
  assert (Hquery : value_sum_mask min_cells (length (var_index f))
                     (surviving_by_batch f min_g max_g batch_size)
                   = map (fun _ => false) (seq 0 (length (var_index f)))).
  { unfold value_sum_mask, surviving_by_batch. apply map_ext. intros j.
    rewrite map_map.
    rewrite (map_ext _ (fun _ : nat => d_zero)).
    - rewrite Hzeros. exact Hge.
    - intros k. rewrite Hnone. reflexivity. }
  rewrite Hquery.
  assert (Hsel : forall (js : list nat) (genes : list string),
             Py.select (map (fun _ => false) js) genes = []).
  { induction js as [| j js IH]; intros [| g genes]; simpl; auto. }
  assert (Hcnt : forall js : list nat,
             List.filter (fun b : bool => b) (map (fun _ => false) js) = []).
  { induction js as [| j js IH]; simpl; auto. }
  unfold select_columns. rewrite Hsel, Hcnt, rows_of_rows. reflexivity.
Qed.

End Laws.

(** The float32 file of two cells, read in batches of one cell with a
    default client. *)
Lemma read_with_filter_result_witness :
  let total_cols := length (var_index two_cell_file) in
  let filtered := degree_filter 1 1 (whole_matrix two_cell_file total_cols) in
  let batches := surviving_by_batch two_cell_file 1 1 1 in
  let query := value_sum_mask 2 total_cols batches in
  exists m genes,
    read_with_filter (Runtime (Some client_a)) client_b two_cell_file
                     1 1 2 None 1
    = Some (m, genes) /\
    m = select_columns query filtered /\
    genes = Py.select query (var_index two_cell_file) /\
    concat batches = rows filtered /\
    shape m = (length (rows filtered), length genes).
Proof.
  apply (read_with_filter_result (Runtime (Some client_a)) client_b
           client_a two_cell_file 1 1 2 1).
  - reflexivity.
  - reflexivity.
  - simpl. lia.
  - lia.
  - simpl. lia.
  - reflexivity.
Defined.

Lemma read_with_filter_needs_default_witness :
  read_with_filter (Runtime None) client_b sample_file 1 3 1 None 2 = None.
Proof.
  apply (read_with_filter_needs_default (Runtime None) client_b sample_file
           1 3 1 None 2).
  reflexivity.
Defined.

(** [sample_file] holds four cells; five are asked for. *)
Lemma read_with_filter_too_many_cells_witness :
  read_with_filter (Runtime (Some client_a)) client_b sample_file
                   1 3 1 (Some 5%nat) 2
  = None.
Proof.
  apply (read_with_filter_too_many_cells (Runtime (Some client_a)) client_b
           sample_file 1 3 1 5 2).
  simpl. lia.
Defined.


(** The float32 file of two cells, read in batches of one cell. *)
Lemma read_with_filter_inverted_bounds_witness :
  read_with_filter (Runtime (Some client_a)) client_b two_cell_file
                   3 1 1 None 1
  = Some (of_rows 0 [], []).
Proof.
  apply (read_with_filter_inverted_bounds (Runtime (Some client_a)) client_b
           client_a two_cell_file 3 1 1 1).
  - reflexivity.
  - reflexivity.
  - lia.
  - simpl. lia.
  - reflexivity.
  - lia.
  - reflexivity.
  - reflexivity.
Defined.

End IngestLaws.

(** ** The distributed reducer *)

Module ReducerLaws.
Import Csr CsrFacts Reducer ReducerFacts Ingest IngestFacts.

Section Laws.

Context {V : Type} `{Dtype V}.

(** X16: whenever [sum_csr_matrix] succeeds, it has submitted one task
    per partition, in order, each pinned to the worker that the default
    client reports as holding that partition. *)
Theorem sum_csr_matrix_locality (rt : runtime)
    (csr_matrix : list (csr_matrix V)) (client : Client) (ax : axis)
    (r : reduction) :
  sum_csr_matrix rt csr_matrix client ax = Some r ->
  exists d,
    default_client rt = Some d /\
    length (placement r) = length csr_matrix /\
    forall k part, csr_matrix !! k = Some part ->
                   placement r !! k = Some (who_has d k).
Proof.
  intros Hr.
  destruct (sum_csr_matrix_placement rt csr_matrix client ax r Hr)
    as (d & Hd & Hp).
  exists d. split; [exact Hd |]. rewrite Hp. split.
  - apply length_imap.
  - intros k part Hk. rewrite list_lookup_imap, Hk. reflexivity.
Qed.


End Laws.

Lemma sum_csr_matrix_locality_witness :
  exists d,
    default_client (Runtime (Some client_b)) = Some d /\
    length (placement (Reduction ["worker-1"; "worker-2"]
                                 [[4; 7; 10]; [4; 7; 10]]))
    = length [whole_matrix sample_file 3; whole_matrix sample_file 3] /\
    forall k part,
      [whole_matrix sample_file 3; whole_matrix sample_file 3] !! k
      = Some part ->
      placement (Reduction ["worker-1"; "worker-2"]
                           [[4; 7; 10]; [4; 7; 10]]) !! k
      = Some (who_has d k).
Proof.
  apply (sum_csr_matrix_locality (Runtime (Some client_b))
           [whole_matrix sample_file 3; whole_matrix sample_file 3]
           client_a Axis0).
  reflexivity.
Defined.


End ReducerLaws.

(** ** Peak filter *)

Module PeaksLaws.
Import Py PyFacts Peaks PeaksFacts.

(** X19: with [n_top_peaks = 0], and with [n_top_peaks] at least the
    number of columns, [filter_peaks] retains every column: the slice is
    the whole result of the sort. *)
Theorem filter_peaks_keeps_all (argsort : list Q -> list nat)
    (adata : AnnData) (n_top_peaks : Z) :
  is_argsort (peak_frequency adata) (argsort (peak_frequency adata))
  = true ->
  n_top_peaks = 0 \/ Z.of_nat (n_vars adata) <= n_top_peaks ->
  retained_columns argsort adata n_top_peaks
  = argsort (peak_frequency adata) /\
  length (retained_columns argsort adata n_top_peaks) = n_vars adata /\
  forall j, (j < n_vars adata)%nat ->
            j ∈ retained_columns argsort adata n_top_peaks.
Proof.
  intros Hsort Hn.
  destruct (is_argsort_inv _ _ Hsort) as (Hlen & _).
  rewrite length_peak_frequency in Hlen.
  assert (Hall : retained_columns argsort adata n_top_peaks
                 = argsort (peak_frequency adata)).
  { unfold retained_columns, slice_from, bound. rewrite Hlen.
    destruct (Z.ltb_spec (- n_top_peaks) 0);
      (replace (Z.to_nat _) with 0%nat by lia); reflexivity. }
  rewrite Hall. split; [reflexivity |]. split; [exact Hlen |].
  intros j Hj. apply (argsort_covers (peak_frequency adata));
    [exact Hsort | rewrite length_peak_frequency; exact Hj].
Qed.

(** X20: a negative [n_top_peaks] does not raise: the slice starts at
    position [-n_top_peaks], so the columns retained are all but the
    [-n_top_peaks] first of the ascending order, and none of the dropped
    columns has a higher frequency than a retained one. *)
Theorem filter_peaks_negative (argsort : list Q -> list nat)
    (adata : AnnData) (n_top_peaks : Z) :
  is_argsort (peak_frequency adata) (argsort (peak_frequency adata))
  = true ->
  n_top_peaks < 0 ->
  let order := argsort (peak_frequency adata) in
  let use := retained_columns argsort adata n_top_peaks in
  use = drop (Z.to_nat (- n_top_peaks)) order /\
  length use = (n_vars adata - Z.to_nat (- n_top_peaks))%nat /\
  forall j k, j ∈ use -> k ∈ take (Z.to_nat (- n_top_peaks)) order ->
              (key (peak_frequency adata) k
               <= key (peak_frequency adata) j)%Q.
Proof.
  intros Hsort Hn order use.
  destruct (is_argsort_inv _ _ Hsort) as (Hlen & _ & _ & Hs).
  rewrite length_peak_frequency in Hlen.
  assert (Huse : use = drop (Z.to_nat (- n_top_peaks)) order).
  { unfold use, retained_columns, slice_from, bound. fold order.
    destruct (Z.ltb_spec (- n_top_peaks) 0); [lia |].
    destruct (Z.le_gt_cases (- n_top_peaks) (Z.of_nat (length order))).
    - f_equal. lia.
    - rewrite !drop_ge by lia. reflexivity. }
  split; [exact Huse |]. split.
  - rewrite Huse, length_drop. unfold order. rewrite Hlen. reflexivity.
  - intros j k Hj Hk. rewrite Huse in Hj.
    pose proof (take_drop (Z.to_nat (- n_top_peaks)) order) as Hsplit.
    fold order in Hs. rewrite <- Hsplit in Hs.
    apply (sorted_split _ _ _ Hs k j Hk Hj).
Qed.

(** X25: when [np.argsort] returns the column indices in an order of
    ascending frequency, then for 1 <= n_top_peaks <= number of columns
    [filter_peaks] returns the column slice of exactly n_top_peaks
    distinct columns, the last n_top_peaks of that order, and no column
    left out has a higher frequency than a retained one; for the 5x4
    matrix with column frequencies 0.2, 0.8, 0.4, 0.6 and
    n_top_peaks = 2 the retained columns are 3 and 1. *)
Theorem filter_peaks_top (argsort : list Q -> list nat) (adata : AnnData)
    (n_top_peaks : Z) :
  is_argsort (peak_frequency adata) (argsort (peak_frequency adata))
  = true ->
  is_argsort (peak_frequency peaks_example)
             (argsort (peak_frequency peaks_example)) = true ->
  1 <= n_top_peaks <= Z.of_nat (n_vars adata) ->
  let freq := peak_frequency adata in
  let use := retained_columns argsort adata n_top_peaks in
  filter_peaks argsort adata n_top_peaks = column_slice adata use /\
  use = drop (n_vars adata - Z.to_nat n_top_peaks) (argsort freq) /\
  Z.of_nat (length use) = n_top_peaks /\
  NoDup use /\
  (forall j, j ∈ use -> (j < n_vars adata)%nat) /\
  (forall j k, j ∈ use -> (k < n_vars adata)%nat -> k ∉ use ->
               (key freq k <= key freq j)%Q) /\
  retained_columns argsort peaks_example 2 = [3; 1]%nat.
Proof.
  intros Hsort Hex Hn freq use.
  destruct (is_argsort_inv _ _ Hsort) as (Hlen & Hb & Hnd & Hs).
  fold freq in Hsort, Hlen, Hb, Hnd, Hs.
  assert (Hfreq : length freq = n_vars adata)
    by apply length_peak_frequency.
  rewrite Hfreq in Hlen, Hb.
  assert (Huse : use = drop (n_vars adata - Z.to_nat n_top_peaks)
                            (argsort freq)).
  { unfold use, retained_columns. fold freq.
    rewrite slice_from_neg by lia. rewrite Hlen. reflexivity. }
  pose proof (take_drop (n_vars adata - Z.to_nat n_top_peaks) (argsort freq))
    as Hsplit.
  rewrite <- Huse in Hsplit.
  split; [reflexivity |]. split; [exact Huse |].
  split; [| split; [| split; [| split]]].
  - rewrite Huse, length_drop, Hlen. lia.
  - rewrite <- Hsplit in Hnd. apply NoDup_app in Hnd. tauto.
  - intros j Hj. rewrite Forall_forall in Hb. apply Hb.
    rewrite <- Hsplit. apply elem_of_app. right. exact Hj.
  - intros j k Hj Hk Hnot.
    assert (Hin : k ∈ argsort freq).
    { apply (argsort_covers freq); [exact Hsort | lia]. }
    rewrite <- Hsplit in Hin, Hs.
    apply elem_of_app in Hin as [Hin | Hin]; [| contradiction].
    apply (sorted_split freq _ _ Hs k j Hin Hj).
  - unfold retained_columns.
    rewrite (argsort_example _ Hex). reflexivity.
Qed.

Lemma filter_peaks_keeps_all_witness :
  retained_columns argsort_stable peaks_example 7
  = argsort_stable (peak_frequency peaks_example) /\
  length (retained_columns argsort_stable peaks_example 7)
  = n_vars peaks_example /\
  forall j, (j < n_vars peaks_example)%nat ->
            j ∈ retained_columns argsort_stable peaks_example 7.
Proof.
  apply (filter_peaks_keeps_all argsort_stable peaks_example 7).
  - reflexivity.
  - right. change (4 <= 7). lia.
Defined.

Lemma filter_peaks_negative_witness :
  let order := argsort_stable (peak_frequency peaks_example) in
  let use := retained_columns argsort_stable peaks_example (-1) in
  use = drop (Z.to_nat (- (-1))) order /\
  length use = (n_vars peaks_example - Z.to_nat (- (-1)))%nat /\
  forall j k, j ∈ use -> k ∈ take (Z.to_nat (- (-1))) order ->
              (key (peak_frequency peaks_example) k
               <= key (peak_frequency peaks_example) j)%Q.
Proof.
  apply (filter_peaks_negative argsort_stable peaks_example (-1)).
  - reflexivity.
  - lia.
Defined.

(** The stable sort on the example meets the hypotheses. *)
Lemma filter_peaks_top_witness :
  let freq := peak_frequency peaks_example in
  let use := retained_columns argsort_stable peaks_example 2 in
  filter_peaks argsort_stable peaks_example 2
  = column_slice peaks_example use /\
  use = drop (n_vars peaks_example - Z.to_nat 2) (argsort_stable freq) /\
  Z.of_nat (length use) = 2 /\
  NoDup use /\
  (forall j, j ∈ use -> (j < n_vars peaks_example)%nat) /\
  (forall j k, j ∈ use -> (k < n_vars peaks_example)%nat -> k ∉ use ->
               (key freq k <= key freq j)%Q) /\
  retained_columns argsort_stable peaks_example 2 = [3; 1]%nat.
Proof.
  apply (filter_peaks_top argsort_stable peaks_example 2).
  - reflexivity.
  - reflexivity.
  - change (1 <= 2 <= 4). lia.
Defined.

End PeaksLaws.

(** ** TF-IDF normalisers *)

Module TfidfLaws.
Import Csr CsrFacts Tfidf TfidfFacts.

Section AnyArith.

Context {F : Type} `{Arith F}.

Lemma indices_multiply_cols (w : list F) (rs : list (list (Z * F))) :
  map (map fst) (multiply_cols w rs) = map (map fst) rs.
Proof.
  unfold multiply_cols. rewrite map_map. apply map_ext. intros r.
  rewrite map_map. reflexivity.
Qed.

Lemma indices_multiply_rows (v : list F) (rs : list (list (Z * F))) :
  length v = length rs ->
  map (map fst) (multiply_rows v rs) = map (map fst) rs.
Proof.
  unfold multiply_rows. revert v.
  induction rs as [| r rs IH]; intros v Hv; [reflexivity |].
  destruct v as [| x v]; [discriminate |].
  simpl. rewrite map_map. cbn [fst]. f_equal. apply IH.
  simpl in Hv. lia.
Qed.

(** Rows with the column indices of canonical rows are canonical. *)
Lemma canonical_rows_indices (rs rs' : list (list (Z * F))) :
  map (map fst) rs' = map (map fst) rs ->
  Forall (fun r => has_canonical_format r = true) rs ->
  Forall (fun r => has_canonical_format r = true) rs'.
Proof.
  revert rs. induction rs' as [| r' rs' IH]; intros [| r rs] Hidx Hall;
    try discriminate; [constructor |].
  injection Hidx as Hr Hrs. inversion Hall as [| ? ? Hc Hall']; subst.
  constructor; [| exact (IH rs Hrs Hall')].
  rewrite (has_canonical_format_indices r' r Hr). exact Hc.
Qed.

(** The two multiplications keep the pattern of canonical rows, and the
    conversion that follows leaves such rows as they are. *)
Lemma pattern_kept (v w : list F) (rs : list (list (Z * F))) :
  length v = length rs ->
  Forall (fun r => has_canonical_format r = true) rs ->
  map (map fst)
      (map sum_duplicates
           (multiply_cols w (multiply_rows v (map sum_duplicates rs))))
  = map (map fst) rs.
Proof.
  intros Hv Hall. rewrite (sum_duplicates_rows rs Hall).
  assert (Hidx : map (map fst) (multiply_cols w (multiply_rows v rs))
                 = map (map fst) rs).
  { rewrite indices_multiply_cols. apply indices_multiply_rows, Hv. }
  rewrite sum_duplicates_rows; [exact Hidx |].
  exact (canonical_rows_indices rs _ Hidx Hall).
Qed.

(** X21: on a matrix whose rows are in canonical format (column indices
    strictly increasing, and within the shape), [tf_idf] and [logtf_idf]
    keep the sparsity pattern in any arithmetic: row by row the results
    store values at exactly the column indices of the input, whatever
    the factors are. *)
Theorem tf_idf_keeps_pattern (m : csr_matrix F) (pseudocount : F) :
  canonical_rows (snd (shape m)) (rows m) = true ->
  map (map fst) (rows (tf_idf m)) = map (map fst) (rows m) /\
  map (map fst) (rows (logtf_idf m pseudocount)) = map (map fst) (rows m).
Proof.
  intros Hcanon.
  assert (Hall : Forall (fun r => has_canonical_format r = true) (rows m)).
  { apply List.Forall_forall. intros r Hr.
    unfold canonical_rows in Hcanon. rewrite forallb_forall in Hcanon.
    specialize (Hcanon r Hr). apply andb_true_iff in Hcanon. tauto. }
  unfold tf_idf, logtf_idf. rewrite !rows_of_rows.
  split; apply pattern_kept; try exact Hall;
    unfold sums_axis1; rewrite !length_map; reflexivity.
Qed.

(** Adding an entry to a canonical row gives a canonical row. *)
Lemma add_entry_canonical (e : Z * F) (r : list (Z * F)) :
  has_canonical_format r = true ->
  has_canonical_format (add_entry e r) = true.
Proof.
  induction r as [| a r IH]; intros Hc; [reflexivity |].
  cbn [add_entry].
  destruct (Z.ltb_spec (fst e) (fst a)) as [Hlt | Hge].
  - cbn [has_canonical_format]. apply andb_true_iff. split; [| exact Hc].
    apply Z.ltb_lt. exact Hlt.
  - destruct (Z.eqb_spec (fst e) (fst a)) as [Heq | Hne].
    + rewrite <- Hc. apply has_canonical_format_indices. reflexivity.
    + assert (Hr : has_canonical_format r = true).
      { cbn [has_canonical_format] in Hc. destruct r; [reflexivity |].
        apply andb_true_iff in Hc as [_ Hc]. exact Hc. }
      specialize (IH Hr).
      destruct r as [| b r]; cbn [add_entry has_canonical_format] in *.
      * rewrite andb_true_r. apply Z.ltb_lt. lia.
      * apply andb_true_iff in Hc as [Hab _]. apply Z.ltb_lt in Hab.
        destruct (Z.ltb_spec (fst e) (fst b));
          [| destruct (Z.eqb_spec (fst e) (fst b))];
          apply andb_true_iff; (split; [apply Z.ltb_lt | exact IH]);
          cbn [fst]; lia.
Qed.

Lemma sum_duplicates_is_canonical (r : list (Z * F)) :
  has_canonical_format (sum_duplicates r) = true.
Proof.
  unfold sum_duplicates.
  assert (Hfrom : forall acc : list (Z * F),
             has_canonical_format acc = true ->
             has_canonical_format
               (foldl (fun acc e => add_entry e acc) acc r) = true).
  { induction r as [| e r IH]; intros acc Hacc; [exact Hacc |].
    cbn [foldl]. apply IH, add_entry_canonical, Hacc. }
  apply Hfrom. reflexivity.
Qed.

(** X24: in whatever order the input stores its entries (column indices
    within the shape, unsorted or repeated), every row of the results of
    [tf_idf] and [logtf_idf] is in canonical format: its column indices
    increase strictly, so no position is stored twice. *)
Theorem tf_idf_canonical (m : csr_matrix F) (pseudocount : F) :
  forallb (indices_in_range (snd (shape m))) (rows m) = true ->
  Forall (fun r => has_canonical_format r = true) (rows (tf_idf m)) /\
  Forall (fun r => has_canonical_format r = true)
         (rows (logtf_idf m pseudocount)).
Proof.
  intros _. unfold tf_idf, logtf_idf. rewrite !rows_of_rows.
  split; apply List.Forall_forall; intros r Hr;
    apply in_map_iff in Hr as (r' & <- & _);
    apply sum_duplicates_is_canonical.
Qed.

End AnyArith.

(** The one row of [float_example] holds a single entry. *)
Lemma tf_idf_keeps_pattern_witness :
  let log1p := fun x : float => x in
  map (map fst) (rows (tf_idf (H:=float_arith log1p) float_example))
  = map (map fst) (rows float_example) /\
  map (map fst)
      (rows (logtf_idf (H:=float_arith log1p) float_example 100000%float))
  = map (map fst) (rows float_example).
Proof.
  apply (tf_idf_keeps_pattern (H:=float_arith (fun x : float => x))
           float_example 100000%float).
  reflexivity.
Defined.

(** A row stored as columns 2, 0, 2 comes back as columns 0, 2. *)
Lemma tf_idf_canonical_witness :
  let log1p := fun x : float => x in
  Forall (fun r => has_canonical_format r = true)
         (rows (tf_idf (H:=float_arith log1p) unsorted_example)) /\
  Forall (fun r => has_canonical_format r = true)
         (rows (logtf_idf (H:=float_arith log1p) unsorted_example
                          100000%float)).
Proof.
  apply (tf_idf_canonical (H:=float_arith (fun x : float => x))
           unsorted_example 100000%float).
  reflexivity.
Defined.

End TfidfLaws.
